(** * astro-r2: a shallow embedding of the image-hosting API routes

    The development follows the TypeScript sources:
    - [lib/auth.ts] and the routes [api/auth/login|logout|verify.ts],
    - the [R2Service] class ([generateFileName], [processImage],
      [uploadImage], [deleteImage], [listImages]) and [getR2Config],
    - the routes [api/upload.ts] (POST) and [api/images.ts] (GET, DELETE),
    - of the client: [checkAuthStatus], the [useToast] hook, the form of
      the uploader and the queries and the selection of the gallery.

    JavaScript strings are sequences of UTF-16 code units, numbers are
    the integers together with NaN (every number these routes compute
    comes from [parseInt], [Date.now], a length or an addition of
    those; the model is exact below 2^53), and the effects of a handler
    (calls of the store client, of the codec, of the console) are
    threaded through an explicit world that also records them. *)

From Stdlib Require Import ZArith NArith List Ascii String DecimalString.
From Stdlib Require Import Decimal DecimalZ.
From Stdlib.Strings Require Import Byte.
From stdpp Require Import gmap list strings.

Local Open Scope Z_scope.
Set Warnings "-register-all,-clear-no-such-hyp".

(** ** JavaScript values *)

Abbreviation jsstring := (list N).
Abbreviation bytes := (list byte).

(** A literal of the source, as code units. *)
Definition str (s : string) : jsstring :=
  map N_of_ascii (list_ascii_of_string s).

Inductive number : Type :=
| NaN
| Int (z : Z).

Module JS.

(** Truthiness, as used by [!x], [x || d] and [if (x)]. *)
Definition truthy_str (s : jsstring) : bool :=
  match s with [] => false | _ :: _ => true end.

Definition truthy_num (n : number) : bool :=
  match n with NaN => false | Int z => negb (z =? 0) end.

(** [a || d] on an optional string ([undefined], [null] and [''] are falsy). *)
Definition or_str (a : option jsstring) (d : jsstring) : jsstring :=
  match a with
  | Some s => if truthy_str s then s else d
  | None => d
  end.

(** [a || d] on an optional number ([undefined], [0] and [NaN] are falsy). *)
Definition or_num (a : option number) (d : number) : number :=
  match a with
  | Some n => if truthy_num n then n else d
  | None => d
  end.

Definition add (a b : number) : number :=
  match a, b with
  | Int x, Int y => Int (x + y)
  | _, _ => NaN
  end.

(** [Math.min(a, b)] *)
Definition min (a b : number) : number :=
  match a, b with
  | Int x, Int y => Int (Z.min x y)
  | _, _ => NaN
  end.

(** [a > b]; any comparison with NaN is false. *)
Definition gt (a b : number) : bool :=
  match a, b with
  | Int x, Int y => y <? x
  | _, _ => false
  end.

(** [`${n}`] and [n.toString()] for a number of the model: its decimal
    digits.  JavaScript prints an integer this way up to 2^53 in
    magnitude; from 10^21 on it writes an exponent instead, which is
    not modelled. *)
Definition to_string (n : number) : jsstring :=
  match n with
  | NaN => str "NaN"
  | Int z => str (NilZero.string_of_int (Z.to_int z))
  end.

(** [s.startsWith(p)] *)
Fixpoint startsWith (s p : jsstring) : bool :=
  match p, s with
  | [], _ => true
  | _ :: _, [] => false
  | c :: p', d :: s' => (c =? d)%N && startsWith s' p'
  end.

(** [arr.includes(x)] on an array of strings. *)
Definition includes (arr : list jsstring) (x : jsstring) : bool :=
  bool_decide (x ∈ arr).

(** [s.split(sep)] for a one-unit separator: never empty. *)
Fixpoint split (sep : N) (s : jsstring) : list jsstring :=
  match s with
  | [] => [[]]
  | c :: r =>
      if (c =? sep)%N then [] :: split sep r
      else match split sep r with
           | seg :: segs => (c :: seg) :: segs
           | [] => [[c]]
           end
  end.

(** [arr.pop()]: the last element, [undefined] on an empty array. *)
Definition pop (arr : list jsstring) : option jsstring := last arr.

(** [arr.slice(start, end)]: relative indices, negative ones count
    from the end, NaN is 0. *)
Definition rel_index (len : Z) (n : number) : Z :=
  match n with
  | NaN => 0
  | Int k => if k <? 0 then Z.max (len + k) 0 else Z.min k len
  end.

Definition slice {A} (l : list A) (start end_ : number) : list A :=
  let len := Z.of_nat (length l) in
  let k := rel_index len start in
  let final := rel_index len end_ in
  take (Z.to_nat (final - k)) (drop (Z.to_nat k) l).

(** *** [parseInt(s)] with no radix argument *)

(** WhiteSpace and LineTerminator code units, stripped at the start. *)
Definition is_white (c : N) : bool :=
  bool_decide (c ∈ [9; 10; 11; 12; 13; 32; 160; 5760; 8232; 8233;
                     8239; 8287; 12288; 65279]%N)
  || ((8192 <=? c)%N && (c <=? 8202)%N).

Fixpoint trim_start (s : jsstring) : jsstring :=
  match s with
  | c :: r => if is_white c then trim_start r else s
  | [] => []
  end.

Definition digit_value (c : N) : option Z :=
  if (48 <=? c)%N && (c <=? 57)%N then Some (Z.of_N c - 48)
  else if (97 <=? c)%N && (c <=? 122)%N then Some (Z.of_N c - 87)
  else if (65 <=? c)%N && (c <=? 90)%N then Some (Z.of_N c - 55)
  else None.

Definition radix_digit (R : Z) (c : N) : option Z :=
  match digit_value c with
  | Some d => if d <? R then Some d else None
  | None => None
  end.

(** The longest prefix of radix-[R] digits. *)
Fixpoint digits_prefix (R : Z) (s : jsstring) : list Z :=
  match s with
  | c :: r =>
      match radix_digit R c with
      | Some d => d :: digits_prefix R r
      | None => []
      end
  | [] => []
  end.

Definition math_int (R : Z) (ds : list Z) : Z :=
  fold_left (fun acc d => acc * R + d) ds 0.

Definition parseInt (s : jsstring) : number :=
  let s1 := trim_start s in
  let '(sign, s2) :=
    match s1 with
    | c :: r => if (c =? 45)%N then (-1, r)
                else if (c =? 43)%N then (1, r) else (1, s1)
    | [] => (1, [])
    end in
  let '(R, s3) :=
    match s2 with
    | c0 :: c1 :: r =>
        if (c0 =? 48)%N && ((c1 =? 120)%N || (c1 =? 88)%N)
        then (16, r) else (10, s2)
    | _ => (10, s2)
    end in
  match digits_prefix R s3 with
  | [] => NaN
  | ds => Int (sign * math_int R ds)
  end.

(** *** The two regular expressions of [R2Service] *)

(** The class [[a-zA-Z0-9.-]] (the final [-] is literal). *)
Definition in_name_class (c : N) : bool :=
  ((97 <=? c)%N && (c <=? 122)%N)
  || ((65 <=? c)%N && (c <=? 90)%N)
  || ((48 <=? c)%N && (c <=? 57)%N)
  || (c =? 46)%N || (c =? 45)%N.

(** [s.replace(/[^a-zA-Z0-9.-]/g, '_')]: without the [u] flag the
    expression is matched against single code units. *)
Definition replace_unsafe (s : jsstring) : jsstring :=
  map (fun c => if in_name_class c then c else 95%N) s.

(** The class [[^/.]] *)
Definition not_slash_dot (c : N) : bool :=
  negb ((c =? 47)%N || (c =? 46)%N).

(** [s.replace(/\.[^/.]+$/, rep)]: the leftmost position where a dot is
    followed, up to the end of the string, by one or more units other
    than [/] and [.]; the text from there on becomes [rep].  ([rep] is
    an extension here and holds no [$] pattern.) *)
Fixpoint replace_ext (s rep : jsstring) : jsstring :=
  match s with
  | [] => []
  | c :: r =>
      if (c =? 46)%N && truthy_str r && forallb not_slash_dot r
      then rep
      else c :: replace_ext r rep
  end.

(** [buf.toString('hex')] *)
Definition hex_digit (n : N) : N :=
  if (n <? 10)%N then (48 + n)%N else (87 + n)%N.

Definition hex (b : bytes) : jsstring :=
  flat_map (fun x => let n := Byte.to_N x in
                     [hex_digit (n / 16)%N; hex_digit (n mod 16)%N]) b.

End JS.

(** ** JSON bodies and responses *)

(** The argument of [JSON.stringify]; a [Date] serialises to its ISO
    string and is kept as its millisecond value. *)
Inductive json : Type :=
| JNull
| JBool (b : bool)
| JNum (n : number)
| JStr (s : jsstring)
| JDate (ms : Z)
| JArr (items : list json)
| JObj (fields : list (string * json)).

Record Response : Type := mkResponse {
  status : Z;
  headers : list (string * string);
  body : json;
}.

(** [new Response(JSON.stringify(b), { status, headers: {'Content-Type': 'application/json'} })] *)
Definition json_response (st : Z) (b : json) : Response :=
  {| status := st;
     headers := [("Content-Type", "application/json")]%string;
     body := b |}.

(** ** Requests *)

(** A [File] of the form data; [file.size] is the length of its content. *)
Record File : Type := mkFile {
  file_name : jsstring;
  file_type : jsstring;
  file_content : bytes;
}.

Definition file_size (f : File) : number :=
  Int (Z.of_nat (length (file_content f))).

Inductive FormDataEntryValue : Type :=
| FString (s : jsstring)
| FFile (f : File).

(** The body of a request as [request.formData()] and [request.json()]
    see it; each of the two rejects on a body of the other kind. *)
Inductive RequestBody : Type :=
| FormBody (entries : list (jsstring * FormDataEntryValue))
| JsonBody (j : json)
| OtherBody.

Record Request : Type := mkRequest {
  request_headers : list (jsstring * jsstring);
  request_body : RequestBody;
}.

(** [APIContext]: the cookies of the request, the search parameters of
    its URL (in order, with duplicates) and the request itself. *)
Record APIContext : Type := mkContext {
  cookies : gmap jsstring jsstring;
  searchParams : list (jsstring * jsstring);
  request : Request;
}.

(** [params.get(name)] of [URLSearchParams] and [FormData]: the first
    entry of that name, [null] when there is none. *)
Fixpoint get {V} (entries : list (jsstring * V)) (name : jsstring) : option V :=
  match entries with
  | [] => None
  | (k, v) :: r => if bool_decide (k = name) then Some v else get r name
  end.

(** ** The environment and the world *)

Inductive Command : Type :=
| PutObjectCommand (Bucket Key : jsstring) (Body : bytes)
                   (ContentType CacheControl : jsstring)
| DeleteObjectCommand (Bucket : jsstring) (Key : json)
| ListObjectsV2Command (Bucket Prefix : jsstring) (MaxKeys : number).

(** What a handler reads but does not change: configuration, the
    clock (one instant for the whole request), the random source, and
    the libraries taken as black boxes
    (the codec [sharp(...).webp({quality}).toBuffer()], which returns
    bytes or raises; the tables of [mime-types]; faults of the store
    client, by command; the text of the floating-point quotient
    [maxSize / 1024 / 1024] in an error message). *)
Record Env : Type := mkEnv {
  meta_env : gmap string jsstring;
  process_env : gmap string jsstring;
  now : Z;
  entropy : nat -> byte;
  sharp_webp : bytes -> number -> option bytes;
  mime_extension : jsstring -> option jsstring;
  mime_lookup : jsstring -> option jsstring;
  send_fault : Command -> option jsstring;
  megabytes : number -> jsstring;
}.

Record StoredObject : Type := mkObject {
  object_key : jsstring;
  object_body : bytes;
  object_type : jsstring;
  object_cache : jsstring;
  object_modified : Z;
}.

Inductive Event : Type :=
| Send (c : Command)
| SharpWebp (input : bytes) (quality : number)
| ConsoleWarn (label : string)
| ConsoleError (label : string).

(** The bucket, in the order in which the store lists it, and the
    calls made so far, oldest first. *)
Record World : Type := mkWorld {
  objects : list StoredObject;
  events : list Event;
}.

(** Computations that may raise and that change the world. *)
Inductive Outcome (A : Type) : Type :=
| Ok (a : A)
| Throw (message : jsstring).
Arguments Ok {A} a.
Arguments Throw {A} message.

Definition M (A : Type) : Type := World -> Outcome A * World.

Definition ret {A} (a : A) : M A := fun w => (Ok a, w).

Definition bind {A B} (m : M A) (k : A -> M B) : M B :=
  fun w => match m w with
           | (Ok a, w1) => k a w1
           | (Throw e, w1) => (Throw e, w1)
           end.

Definition throw {A} (e : jsstring) : M A := fun w => (Throw e, w).

(** [try { m } catch (error) { h(error.message) }] *)
Definition try_catch {A} (m : M A) (h : jsstring -> M A) : M A :=
  fun w => match m w with
           | (Ok a, w1) => (Ok a, w1)
           | (Throw e, w1) => h e w1
           end.

Definition emit (ev : Event) : M unit :=
  fun w => (Ok tt, {| objects := objects w; events := events w ++ [ev] |}).

Declare Scope js_scope.
Delimit Scope js_scope with js.
Notation "x <- m ;; k" := (bind m (fun x => k))
  (at level 100, m at next level, right associativity) : js_scope.
Notation "m ;;; k" := (bind m (fun _ => k))
  (at level 100, right associativity) : js_scope.
Local Open Scope js_scope.

(** ** The store client

    [client.send(command)] against one bucket.  Every call is recorded
    when it is made; a fault of the environment makes it raise.  Else a
    [Put] writes (replacing an object of the same key, keys kept in
    ascending order), a [Delete] removes the object whose key is the
    text of [Key] (a number or a boolean goes by its text; an array or
    an object as [Key] is not modelled, and raises here), and a [List]
    answers the objects under the prefix, at most [MaxKeys] and at most
    1000 of them, leaving [Contents] undefined when there are none (a
    [MaxKeys] that is negative or NaN raises). *)

Record _Object : Type := mkEntry {
  Key : jsstring;
  Size : option number;
  LastModified : option Z;
}.

Inductive Output : Type :=
| PutObjectOutput
| DeleteObjectOutput
| ListObjectsV2Output (Contents : option (list _Object)).

Module Store.

Fixpoint key_ltb (a b : jsstring) : bool :=
  match a, b with
  | [], [] => false
  | [], _ :: _ => true
  | _ :: _, [] => false
  | x :: a', y :: b' => (x <? y)%N || ((x =? y)%N && key_ltb a' b')
  end.

Fixpoint put (o : StoredObject) (os : list StoredObject) : list StoredObject :=
  match os with
  | [] => [o]
  | p :: r =>
      if bool_decide (object_key p = object_key o) then o :: r
      else if key_ltb (object_key o) (object_key p) then o :: p :: r
      else p :: put o r
  end.

Definition remove (k : jsstring) (os : list StoredObject) : list StoredObject :=
  filter (fun o => object_key o ≠ k) os.

Definition entry (o : StoredObject) : _Object :=
  {| Key := object_key o;
     Size := Some (Int (Z.of_nat (length (object_body o))));
     LastModified := Some (object_modified o) |}.

(** The page a listing call answers. *)
Definition page (prefix : jsstring) (maxKeys : Z) (os : list StoredObject)
  : list StoredObject :=
  take (Z.to_nat (Z.min maxKeys 1000))
       (filter (fun o => JS.startsWith (object_key o) prefix = true) os).

Definition contents (es : list _Object) : option (list _Object) :=
  match es with [] => None | _ => Some es end.

Definition invalid_argument : jsstring := str "InvalidArgument".

(** The text a [Key] is sent as. *)
Definition key_text (k : json) : option jsstring :=
  match k with
  | JStr s => Some s
  | JNum n => Some (JS.to_string n)
  | JBool b => Some (if b then str "true" else str "false")
  | _ => None
  end.

Definition run (env : Env) (c : Command) (w : World) : Outcome Output * World :=
  match c with
  | PutObjectCommand _ k b ct cc =>
      (Ok PutObjectOutput,
       {| objects := put (mkObject k b ct cc (now env)) (objects w);
          events := events w |})
  | DeleteObjectCommand _ k =>
      match key_text k with
      | Some t =>
          (Ok DeleteObjectOutput,
           {| objects := remove t (objects w); events := events w |})
      | None => (Throw invalid_argument, w)
      end
  | ListObjectsV2Command _ p (Int n) =>
      if 0 <=? n
      then (Ok (ListObjectsV2Output
                  (contents (map entry (page p n (objects w))))), w)
      else (Throw invalid_argument, w)
  | ListObjectsV2Command _ _ NaN => (Throw invalid_argument, w)
  end.

Definition send (env : Env) (c : Command) : M Output :=
  emit (Send c) ;;;
  match send_fault env c with
  | Some msg => throw msg
  | None => run env c
  end.

End Store.

(** ** lib/auth.ts *)

Definition auth_token : jsstring := str "auth-token".

Module auth.

Definition isAuthenticated (context : APIContext) : bool :=
  match cookies context !! auth_token with
  | Some value => JS.truthy_str value
  | None => false
  end.

Definition requireAuth (context : APIContext) : option Response :=
  if negb (isAuthenticated context)
  then Some (json_response 401
               (JObj [("error", JStr (str "Authentication required"))]%string))
  else None.

End auth.

(** ** pages/api/auth *)

Module verify.

Definition GET (context : APIContext) : Response :=
  let authenticated := auth.isAuthenticated context in
  json_response (if authenticated then 200 else 401)
    (JObj [("authenticated", JBool authenticated)]%string).

End verify.

Module logout.

(** The response, and the cookies once [cookies.delete] has been
    applied. *)
Definition POST (context : APIContext) : Response * gmap jsstring jsstring :=
  (json_response 200
     (JObj [("success", JBool true);
            ("message", JStr (str "Logout successful"))]%string),
   delete auth_token (cookies context)).

End logout.

(** [crypto.randomBytes(n)] *)
Definition randomBytes (env : Env) (n : nat) : bytes :=
  map (entropy env) (seq 0 n).

(** [import.meta.env[key] || process.env[key]]; every use goes on
    with [||] or [!], so the falsy results ([undefined], ['']) are
    one. *)
Definition env_value (env : Env) (key : string) : option jsstring :=
  match meta_env env !! key with
  | Some (c :: s) => Some (c :: s)
  | _ => match process_env env !! key with
         | Some (c :: s) => Some (c :: s)
         | _ => None
         end
  end.

(** [obj.name] on a parsed JSON value: [null] raises, a value that is
    not an object has no property, and of two members of one name
    [JSON.parse] keeps the later. *)
Fixpoint field (fields : list (string * json)) (name : string) : option json :=
  match fields with
  | [] => None
  | (k, v) :: r =>
      match field r name with
      | Some x => Some x
      | None => if String.eqb k name then Some v else None
      end
  end.

Definition property (j : json) (name : string) : M (option json) :=
  match j with
  | JNull => throw (str "Cannot destructure property of null")
  | JObj fields => ret (field fields name)
  | _ => ret None
  end.

(** [await request.json()] *)
Definition request_json (r : Request) : M json :=
  match request_body r with
  | JsonBody j => ret j
  | _ => throw (str "Unexpected end of JSON input")
  end.

(** [v === s] for a string [s]. *)
Definition strict_eq_str (v : option json) (s : jsstring) : bool :=
  match v with
  | Some (JStr t) => bool_decide (t = s)
  | _ => false
  end.

(** Truthiness of a property value. *)
Definition truthy (v : option json) : bool :=
  match v with
  | None | Some JNull => false
  | Some (JBool b) => b
  | Some (JNum n) => JS.truthy_num n
  | Some (JStr s) => JS.truthy_str s
  | Some (JDate _) | Some (JArr _) | Some (JObj _) => true
  end.

Module login.

Definition generateAuthToken (env : Env) : jsstring :=
  JS.hex (randomBytes env 32).

(** The cookie attributes (httpOnly, secure, sameSite, 24 hours of
    maxAge, path) do not reach the server again and are left out. *)
Definition POST (env : Env) (context : APIContext)
  : M (Response * gmap jsstring jsstring) :=
  try_catch
    (j <- request_json (request context) ;;
     password <- property j "password" ;;
     match env_value env "ADMIN_PASSWORD" with
     | None =>
         ret (json_response 500
                (JObj [("error", JStr (str "Server configuration error: ADMIN_PASSWORD not set"))]%string),
              cookies context)
     | Some adminPassword =>
         if negb (strict_eq_str password adminPassword)
         then ret (json_response 401
                     (JObj [("error", JStr (str "Invalid password"))]%string),
                   cookies context)
         else
           let token := generateAuthToken env in
           ret (json_response 200
                  (JObj [("success", JBool true);
                         ("message", JStr (str "Login successful"))]%string),
                <[auth_token := token]> (cookies context))
     end)
    (fun _ =>
       emit (ConsoleError "Login error:") ;;;
       ret (json_response 500
              (JObj [("error", JStr (str "Internal server error"))]%string),
            cookies context)).

End login.

(** ** The R2 service *)

Record R2Config : Type := mkConfig {
  accountId : jsstring;
  accessKeyId : jsstring;
  secretAccessKey : jsstring;
  bucketName : jsstring;
  endpoint : jsstring;
  publicUrl : jsstring;
}.

Definition getR2Config (env : Env) : R2Config :=
  let getValue := env_value env in
  {| accountId := JS.or_str (getValue "R2_ACCOUNT_ID") [];
     accessKeyId := JS.or_str (getValue "R2_ACCESS_KEY_ID") [];
     secretAccessKey := JS.or_str (getValue "R2_SECRET_ACCESS_KEY") [];
     bucketName := JS.or_str (getValue "R2_BUCKET_NAME") [];
     endpoint := JS.or_str (getValue "R2_ENDPOINT") [];
     publicUrl := JS.or_str (getValue "R2_PUBLIC_URL") [] |}.

Record UploadOptions : Type := mkOptions {
  useHashName : option bool;
  compressToWebp : option bool;
  quality : option number;
}.

Record ImageInfo : Type := mkInfo {
  key : jsstring;
  url : jsstring;
  size : number;
  mimeType : jsstring;
  uploadedAt : Z;
}.

Record Processed : Type := mkProcessed {
  buffer : bytes;
  processed_mimeType : jsstring;
  ext : jsstring;
}.

Inductive FileOrBuffer : Type :=
| IsFile (f : File)
| IsBuffer (b : bytes).

Module R2Service.
Section Service.

Variable env : Env.
Variable config : R2Config.

Definition generateFileName (originalName : jsstring) (useHash : option bool)
  : jsstring :=
  let ext := JS.or_str (JS.pop (JS.split 46 originalName)) [] in
  if default false useHash then
    let hash := JS.hex (randomBytes env 16) in
    hash ++ str "." ++ ext
  else
    let timestamp := Int (now env) in
    let cleanName := JS.replace_unsafe originalName in
    JS.to_string timestamp ++ str "_" ++ cleanName.

(** [await sharp(buffer).webp({ quality }).toBuffer()] *)
Definition sharp (input : bytes) (q : number) : M bytes :=
  emit (SharpWebp input q) ;;;
  match sharp_webp env input q with
  | Some out => ret out
  | None => throw (str "sharp: conversion failed")
  end.

Definition processImage (buffer : bytes) (mimeType : jsstring)
                        (options : UploadOptions) : M Processed :=
  if negb (default false (compressToWebp options))
     || negb (JS.startsWith mimeType (str "image/"))
  then
    ret {| buffer := buffer;
           processed_mimeType := mimeType;
           ext := JS.or_str (mime_extension env mimeType) (str "bin") |}
  else
    try_catch
      (webpBuffer <- sharp buffer (JS.or_num (quality options) (Int 80)) ;;
       ret {| buffer := webpBuffer;
              processed_mimeType := str "image/webp";
              ext := str "webp" |})
      (fun _ =>
         emit (ConsoleWarn "Failed to convert to WebP, using original format:") ;;;
         ret {| buffer := buffer;
                processed_mimeType := mimeType;
                ext := JS.or_str (mime_extension env mimeType) (str "bin") |}).

(** The first statement of [uploadImage]: the bytes, the declared
    type and the name it goes on with ([file instanceof File] or a
    buffer, whose type is looked up from the name). *)
Definition resolve (file : FileOrBuffer) (originalName : jsstring)
  : bytes * jsstring * jsstring :=
  match file with
  | IsFile f => (file_content f, file_type f, file_name f)
  | IsBuffer b =>
      (b, JS.or_str (mime_lookup env originalName)
            (str "application/octet-stream"), originalName)
  end.

Definition uploadImage (file : FileOrBuffer) (originalName : jsstring)
                       (options : UploadOptions) : M ImageInfo :=
  let '(buffer0, mimeType0, originalName) := resolve file originalName in
  processed <- processImage buffer0 mimeType0 options ;;
  let fileName :=
    generateFileName
      (JS.replace_ext originalName (str "." ++ ext processed))
      (useHashName options) in
  let key := fileName in
  let command :=
    PutObjectCommand (bucketName config) key (buffer processed)
      (processed_mimeType processed) (str "public, max-age=31536000") in
  Store.send env command ;;;
  ret {| key := key;
         url := publicUrl config ++ str "/" ++ key;
         size := Int (Z.of_nat (length (buffer processed)));
         mimeType := processed_mimeType processed;
         uploadedAt := now env |}.

Definition deleteImage (key : json) : M unit :=
  let command := DeleteObjectCommand (bucketName config) key in
  Store.send env command ;;;
  ret tt.

(** [listImages(prefix = '', maxKeys = 100, offset = 0)]: an argument
    that is not passed takes its default. *)
Definition listImages (prefix : option jsstring) (maxKeys offset : option number)
  : M (list ImageInfo) :=
  let prefix := default [] prefix in
  let maxKeys := default (Int 100) maxKeys in
  let offset := default (Int 0) offset in
  let fetchLimit := JS.add maxKeys offset in
  let command :=
    ListObjectsV2Command (bucketName config) prefix
      (JS.min fetchLimit (Int 1000)) in
  response <- Store.send env command ;;
  let allImages :=
    map (fun object =>
           {| key := Key object;
              url := publicUrl config ++ str "/" ++ Key object;
              size := JS.or_num (Size object) (Int 0);
              mimeType := JS.or_str (mime_lookup env (Key object))
                            (str "application/octet-stream");
              uploadedAt := default (now env) (LastModified object) |})
        (match response with
         | ListObjectsV2Output (Some cs) => cs
         | _ => []
         end) in
  ret (JS.slice allImages offset (JS.add offset maxKeys)).

End Service.
End R2Service.

(** [JSON.stringify] of an [ImageInfo]. *)
Definition image_json (i : ImageInfo) : json :=
  JObj [("key", JStr (key i)); ("url", JStr (url i)); ("size", JNum (size i));
        ("mimeType", JStr (mimeType i)); ("uploadedAt", JDate (uploadedAt i))]%string.

(** [await request.formData()] *)
Definition request_formData (r : Request)
  : M (list (jsstring * FormDataEntryValue)) :=
  match request_body r with
  | FormBody entries => ret entries
  | _ => throw (str "Content-Type was not one of multipart/form-data or application/x-www-form-urlencoded")
  end.

(** [(v as string) === s] on an entry of the form. *)
Definition entry_is (v : option FormDataEntryValue) (s : jsstring) : bool :=
  match v with
  | Some (FString t) => bool_decide (t = s)
  | _ => false
  end.

(** The text [parseInt] reads from [(v as string) || d]: a missing or
    empty field gives [d], a file is converted to its tag. *)
Definition entry_or (v : option FormDataEntryValue) (d : jsstring) : jsstring :=
  match v with
  | None => d
  | Some (FString s) => JS.or_str (Some s) d
  | Some (FFile _) => str "[object File]"
  end.

(** ** pages/api/upload.ts *)

Module upload.

Definition allowedTypes : list jsstring :=
  [str "image/jpeg"; str "image/png"; str "image/gif"; str "image/webp";
   str "image/svg+xml"].

Definition maxSize (env : Env) : number :=
  JS.parseInt (JS.or_str (env_value env "MAX_FILE_SIZE") (str "10485760")).

Definition too_large (env : Env) : Response :=
  json_response 400
    (JObj [("error", JStr (str "File size exceeds limit of "
                            ++ megabytes env (maxSize env) ++ str "MB"))]%string).

Definition invalid_type : Response :=
  json_response 400
    (JObj [("error", JStr (str "Invalid file type. Only images are allowed."))]%string).

Definition options_of (formData : list (jsstring * FormDataEntryValue))
  : UploadOptions :=
  {| useHashName := Some (entry_is (get formData (str "useHashName")) (str "true"));
     compressToWebp :=
       Some (entry_is (get formData (str "enableWebpCompression")) (str "true"));
     quality := Some (JS.parseInt (entry_or (get formData (str "quality")) (str "80"))) |}.

Definition POST (env : Env) (context : APIContext) : M Response :=
  match auth.requireAuth context with
  | Some authError => ret authError
  | None =>
      try_catch
        (let config := getR2Config env in
         formData <- request_formData (request context) ;;
         match get formData (str "file") with
         | None | Some (FString []) =>
             ret (json_response 400
                    (JObj [("error", JStr (str "No file provided"))]%string))
         | Some (FString (_ :: _)) =>
             (* a string has neither [size] nor [type]: the size test
                is false and [includes(undefined)] is false *)
             ret invalid_type
         | Some (FFile file) =>
             if JS.gt (file_size file) (maxSize env) then ret (too_large env)
             else if negb (JS.includes allowedTypes (file_type file))
             then ret invalid_type
             else
               let options := options_of formData in
               imageInfo <- R2Service.uploadImage env config
                              (IsFile file) (file_name file) options ;;
               ret (json_response 200
                      (JObj [("success", JBool true);
                             ("data", image_json imageInfo)]%string))
         end)
        (fun message =>
           emit (ConsoleError "Upload error:") ;;;
           ret (json_response 500
                  (JObj [("error", JStr (str "Upload failed"));
                         ("details", JStr message)]%string)))
  end.

End upload.

(** ** pages/api/images.ts *)

Module images.

Definition GET (env : Env) (context : APIContext) : M Response :=
  try_catch
    (let config := getR2Config env in
     let limit :=
       JS.parseInt (JS.or_str (get (searchParams context) (str "limit")) (str "50")) in
     let prefix := JS.or_str (get (searchParams context) (str "prefix")) [] in
     images <- R2Service.listImages env config (Some prefix) (Some limit) None ;;
     ret (json_response 200
            (JObj [("success", JBool true);
                   ("data", JArr (map image_json images))]%string)))
    (fun message =>
       emit (ConsoleError "List images error:") ;;;
       ret (json_response 500
              (JObj [("error", JStr (str "Failed to list images"));
                     ("details", JStr message)]%string))).

Definition DELETE (env : Env) (context : APIContext) : M Response :=
  try_catch
    (let config := getR2Config env in
     j <- request_json (request context) ;;
     key <- property j "key" ;;
     if negb (truthy key)
     then ret (json_response 400
                 (JObj [("error", JStr (str "No key provided"))]%string))
     else
       R2Service.deleteImage env config (default JNull key) ;;;
       ret (json_response 200
              (JObj [("success", JBool true);
                     ("message", JStr (str "Image deleted successfully"))]%string)))
    (fun message =>
       emit (ConsoleError "Delete image error:") ;;;
       ret (json_response 500
              (JObj [("error", JStr (str "Failed to delete image"));
                     ("details", JStr message)]%string))).

End images.

(** ** The client side

    [checkAuthStatus] of lib/auth.ts, the [useToast] hook, and the
    parts of the uploader and of the gallery that build requests or
    keep a selection. *)

(** [response.ok] *)
Definition response_ok (r : Response) : bool :=
  (200 <=? status r) && (status r <=? 299).

(** [fetch('/api/auth/verify').then(response => response.ok).catch(() => false)],
    given what [fetch] settles to ([None]: it rejects). *)
Definition checkAuthStatus (fetched : option Response) : bool :=
  match fetched with
  | Some response => response_ok response
  | None => false
  end.

Module useToast.

Inductive ToastType : Type := success | error | info.

Record ToastItem : Type := mkToast {
  toast_id : jsstring;
  toast_message : jsstring;
  toast_type : ToastType;
  toast_duration : number;
}.

(** The state updates of the hook, as functions of the previous list;
    [now] is what [Date.now()] answers. *)
Definition addToast (now : Z) (message : jsstring) (type : option ToastType)
                    (duration : option number) (prev : list ToastItem)
  : list ToastItem :=
  let id := JS.to_string (Int now) in
  let newToast :=
    {| toast_id := id; toast_message := message;
       toast_type := default success type;
       toast_duration := default (Int 3000) duration |} in
  prev ++ [newToast].

Definition removeToast (id : jsstring) (prev : list ToastItem) : list ToastItem :=
  filter (fun toast => toast_id toast ≠ id) prev.

Definition showSuccess (now : Z) (message : jsstring) (duration : option number) :=
  addToast now message (Some success) duration.

Definition showError (now : Z) (message : jsstring) (duration : option number) :=
  addToast now message (Some error) duration.

Definition showInfo (now : Z) (message : jsstring) (duration : option number) :=
  addToast now message (Some info) duration.

End useToast.

Module ImageUploader.

(** [b.toString()] *)
Definition bool_to_string (b : bool) : jsstring :=
  if b then str "true" else str "false".

(** The form [uploadFile] sends. *)
Definition uploadFile (file : File) (quality : number)
                      (useHashName enableWebpCompression : bool)
  : list (jsstring * FormDataEntryValue) :=
  [(str "file", FFile file);
   (str "quality", FString (JS.to_string quality));
   (str "useHashName", FString (bool_to_string useHashName));
   (str "enableWebpCompression", FString (bool_to_string enableWebpCompression))].

(** The files [handleFiles] keeps. *)
Definition handleFiles (files : list File) : list File :=
  List.filter (fun file => JS.startsWith (file_type file) (str "image/")) files.

End ImageUploader.

Module ImageGallery.

Definition imagesPerPage : Z := 1000.

(** The query of [loadImages(page)]:
    [`/api/images?limit=${imagesPerPage}&offset=${offset}`]. *)
Definition loadImages (page : Z) : list (jsstring * jsstring) :=
  let offset := (page - 1) * imagesPerPage in
  [(str "limit", JS.to_string (Int imagesPerPage));
   (str "offset", JS.to_string (Int offset))].

(** The selection is a set of keys; its order of insertion is not kept
    here. *)
Definition toggleImageSelection (key : jsstring) (prev : gset jsstring)
  : gset jsstring :=
  if bool_decide (key ∈ prev) then prev ∖ {[ key ]} else prev ∪ {[ key ]}.

Definition selectAllImages (images : list ImageInfo) (selectedImages : gset jsstring)
  : gset jsstring :=
  if bool_decide (stdpp.base.size selectedImages = length images) then ∅
  else list_to_set (map key images).

End ImageGallery.

(** ** A concrete deployment, for running the handlers *)

Module Demo.

(** The table of [mime-types] on the types of the allow-list. *)
Definition extension (t : jsstring) : option jsstring :=
  if bool_decide (t = str "image/jpeg") then Some (str "jpeg")
  else if bool_decide (t = str "image/png") then Some (str "png")
  else if bool_decide (t = str "image/gif") then Some (str "gif")
  else if bool_decide (t = str "image/webp") then Some (str "webp")
  else if bool_decide (t = str "image/svg+xml") then Some (str "svg")
  else None.

Definition lookup_type (path : jsstring) : option jsstring :=
  let e := default [] (JS.pop (JS.split 46 path)) in
  if bool_decide (e = str "jpeg") || bool_decide (e = str "jpg")
  then Some (str "image/jpeg")
  else if bool_decide (e = str "png") then Some (str "image/png")
  else if bool_decide (e = str "gif") then Some (str "image/gif")
  else if bool_decide (e = str "webp") then Some (str "image/webp")
  else if bool_decide (e = str "svg") then Some (str "image/svg+xml")
  else None.

(** A codec that accepts the qualities 1 to 100 and answers a RIFF
    header followed by the input, and raises otherwise or on no input. *)
Definition riff : bytes := [x52; x49; x46; x46].

Definition codec (input : bytes) (q : number) : option bytes :=
  match input, q with
  | _ :: _, Int z => if (1 <=? z) && (z <=? 100) then Some (riff ++ input) else None
  | _, _ => None
  end.

Definition env : Env :=
  {| meta_env := ∅;
     process_env :=
       {[ "ADMIN_PASSWORD"%string := str "hunter2";
          "R2_BUCKET_NAME"%string := str "images";
          "R2_PUBLIC_URL"%string := str "https://img.example" ]};
     now := 1700000000000;
     entropy := fun i => default x00 (Byte.of_N (N.of_nat (i mod 256)));
     sharp_webp := codec;
     mime_extension := extension;
     mime_lookup := lookup_type;
     send_fault := fun _ => None;
     megabytes := fun n => match n with
                           | Int z => JS.to_string (Int (z / 1048576))
                           | NaN => str "NaN"
                           end |}.

(** The same deployment with [MAX_FILE_SIZE=4]. *)
Definition small_env : Env :=
  {| meta_env := {[ "MAX_FILE_SIZE"%string := str "4" ]};
     process_env := process_env env;
     now := now env;
     entropy := entropy env;
     sharp_webp := sharp_webp env;
     mime_extension := mime_extension env;
     mime_lookup := mime_lookup env;
     send_fault := send_fault env;
     megabytes := megabytes env |}.

Definition config : R2Config := getR2Config env.

Definition object (name : string) (body : bytes) : StoredObject :=
  mkObject (str name) body (str "image/png") (str "public, max-age=31536000") 1690000000000.

(** A bucket of five objects. *)
Definition five : World :=
  {| objects := [object "a.png" [x01]; object "b.png" [x02; x02];
                 object "c.png" [x03]; object "d.png" [x04];
                 object "e.png" [x05]];
     events := [] |}.

Definition empty : World := {| objects := []; events := [] |}.

Definition session : gmap jsstring jsstring := {[ auth_token := str "anything" ]}.

Definition form_request (entries : list (jsstring * FormDataEntryValue)) : Request :=
  {| request_headers := []; request_body := FormBody entries |}.

Definition get_request : Request :=
  {| request_headers := []; request_body := OtherBody |}.

End Demo.

Module Samples.

(** Five bytes of text, declared as [text/plain]. *)
Definition note : File :=
  {| file_name := str "note.txt"; file_type := str "text/plain";
     file_content := [x68; x65; x6c; x6c; x6f] |}.

(** Five bytes declared as PNG. *)
Definition dot : File :=
  {| file_name := str "dot.png"; file_type := str "image/png";
     file_content := [x89; x50; x4e; x47; x0d] |}.

(** An upload of [f] with further text fields, under the cookies [jar]. *)
Definition upload_of (jar : gmap jsstring jsstring) (f : File)
                     (fields : list (string * string)) : APIContext :=
  mkContext jar []
    (Demo.form_request
       ((str "file", FFile f)
        :: map (fun kv => (str kv.1, FString (str kv.2))) fields)).

End Samples.

Module Studio.

(** The bytes of a text in ASCII. *)
Definition text (s : string) : bytes :=
  map byte_of_ascii (list_ascii_of_string s).

(** A complete SVG document: a red square of one pixel. *)
Definition square : File :=
  {| file_name := str "square.svg"; file_type := str "image/svg+xml";
     file_content :=
       text "<svg xmlns='http://www.w3.org/2000/svg' width='1' height='1'><rect width='1' height='1' fill='red'/></svg>" |}.

(** The header of a WebP container, for the picture the codec makes of
    [square]. *)
Definition picture : bytes :=
  text "RIFF" ++ [x04; x00; x00; x00] ++ text "WEBP".

(** A codec that draws [square] at the qualities 1 to 100 and raises
    on every other input, as an encoder does on bytes that are no
    image. *)
Definition codec (input : bytes) (q : number) : option bytes :=
  match q with
  | Int z =>
      if bool_decide (map Byte.to_N input = map Byte.to_N (file_content square))
         && (1 <=? z) && (z <=? 100)
      then Some picture else None
  | NaN => None
  end.

(** The sample deployment with this codec. *)
Definition env : Env :=
  {| meta_env := meta_env Demo.env;
     process_env := process_env Demo.env;
     now := now Demo.env;
     entropy := entropy Demo.env;
     sharp_webp := codec;
     mime_extension := mime_extension Demo.env;
     mime_lookup := mime_lookup Demo.env;
     send_fault := send_fault Demo.env;
     megabytes := megabytes Demo.env |}.

End Studio.

Module Crowd.

(** A bucket of 1001 objects, written one after the other. *)
Definition numbered (i : nat) : StoredObject :=
  mkObject (str "img" ++ JS.to_string (Int (Z.of_nat i)) ++ str ".png") [x00]
    (str "image/png") (str "public, max-age=31536000") 1690000000000.

Definition world : World :=
  {| objects := foldr Store.put [] (map numbered (seq 0 1001));
     events := [] |}.

End Crowd.

(** * Notions of the statements *)

(** ** Sessions *)

(** The cookie of the session is present with a non-empty value. *)
Definition has_session (context : APIContext) : Prop :=
  ∃ v, cookies context !! auth_token = Some v ∧ v ≠ [].

(** The request the browser sends next, with the cookies a response
    left it. *)
Definition with_cookies (jar : gmap jsstring jsstring) (context : APIContext)
  : APIContext :=
  {| cookies := jar; searchParams := searchParams context;
     request := request context |}.

Definition verified : Response :=
  json_response 200 (JObj [("authenticated", JBool true)]%string).

Definition unverified : Response :=
  json_response 401 (JObj [("authenticated", JBool false)]%string).

Definition auth_required : Response :=
  json_response 401 (JObj [("error", JStr (str "Authentication required"))]%string).

(** Two requests that agree on everything a route can read except the
    cookies (and the headers that carry them). *)
Definition same_but_cookies (c1 c2 : APIContext) : Prop :=
  searchParams c1 = searchParams c2
  ∧ request_body (request c1) = request_body (request c2).

(** ** Worlds *)

(** The world after further calls. *)
Definition record (w : World) (evs : list Event) : World :=
  {| objects := objects w; events := events w ++ evs |}.

(** The commands sent to the store, and the calls of the codec, among
    recorded events. *)
Definition sent (evs : list Event) : list Command :=
  omap (fun ev => match ev with Send c => Some c | _ => None end) evs.

Definition codec_calls (evs : list Event) : list (bytes * number) :=
  omap (fun ev => match ev with SharpWebp b q => Some (b, q) | _ => None end) evs.

Definition warning : Event :=
  ConsoleWarn "Failed to convert to WebP, using original format:".

(** ** The normalizer and the upload *)

(** The result that hands the input back. *)
Definition unchanged (env : Env) (b : bytes) (t : jsstring) : Processed :=
  {| buffer := b; processed_mimeType := t;
     ext := JS.or_str (mime_extension env t) (str "bin") |}.

Definition reencoded (out : bytes) : Processed :=
  {| buffer := out; processed_mimeType := str "image/webp"; ext := str "webp" |}.

(** Whether [processImage] goes on to the codec. *)
Definition encodes (t : jsstring) (options : UploadOptions) : bool :=
  default false (compressToWebp options) && JS.startsWith t (str "image/").

(** The command [uploadImage] builds from the normalizer's result,
    and the description it returns. *)
Definition key_of (env : Env) (n : jsstring) (options : UploadOptions)
                  (p : Processed) : jsstring :=
  R2Service.generateFileName env
    (JS.replace_ext n (str "." ++ ext p)) (useHashName options).

Definition put_command (env : Env) (config : R2Config) (n : jsstring)
                       (options : UploadOptions) (p : Processed) : Command :=
  PutObjectCommand (bucketName config) (key_of env n options p) (buffer p)
    (processed_mimeType p) (str "public, max-age=31536000").

Definition info_of (env : Env) (config : R2Config) (n : jsstring)
                   (options : UploadOptions) (p : Processed) : ImageInfo :=
  {| key := key_of env n options p;
     url := publicUrl config ++ str "/" ++ key_of env n options p;
     size := Int (Z.of_nat (length (buffer p)));
     mimeType := processed_mimeType p;
     uploadedAt := now env |}.

(** The second half of [uploadImage]: the put and the description. *)
Definition finish (env : Env) (config : R2Config) (n : jsstring)
                  (options : UploadOptions) (p : Processed) (w : World)
  : Outcome ImageInfo * World :=
  match send_fault env (put_command env config n options p) with
  | Some msg => (Throw msg, record w [Send (put_command env config n options p)])
  | None =>
      (Ok (info_of env config n options p),
       {| objects :=
            Store.put (mkObject (key_of env n options p) (buffer p)
                         (processed_mimeType p)
                         (str "public, max-age=31536000") (now env))
                      (objects w);
          events := events w ++ [Send (put_command env config n options p)] |})
  end.

(** The same options, compression switched off. *)
Definition uncompressed (options : UploadOptions) : UploadOptions :=
  {| useHashName := useHashName options;
     compressToWebp := Some false;
     quality := quality options |}.

(** What is left of the upload route once the gate and the checks are
    passed. *)
Definition stored_response (env : Env) (file : File) (options : UploadOptions)
  : M Response :=
  try_catch
    (imageInfo <- R2Service.uploadImage env (getR2Config env)
                    (IsFile file) (file_name file) options ;;
     ret (json_response 200
            (JObj [("success", JBool true);
                   ("data", image_json imageInfo)]%string)))
    (fun message =>
       emit (ConsoleError "Upload error:") ;;;
       ret (json_response 500
              (JObj [("error", JStr (str "Upload failed"));
                     ("details", JStr message)]%string))).

(** ** Names *)

(** The characters a name keeps. *)
Definition name_chars : jsstring :=
  str "ABCDEFGHIJKLMNOPQRSTUVWXYZabcdefghijklmnopqrstuvwxyz0123456789.-".

(** ** Listings *)

(** The description [listImages] gives of a stored object. *)
Definition image_of (env : Env) (config : R2Config) (o : StoredObject) : ImageInfo :=
  {| key := object_key o;
     url := publicUrl config ++ str "/" ++ object_key o;
     size := Int (Z.of_nat (length (object_body o)));
     mimeType := JS.or_str (mime_lookup env (object_key o))
                   (str "application/octet-stream");
     uploadedAt := object_modified o |}.

(** The objects under a prefix, in the order of the store. *)
Definition store_listing (prefix : jsstring) (w : World) : list StoredObject :=
  filter (fun o => JS.startsWith (object_key o) prefix = true) (objects w).

(** The one listing call of [listImages] for [n] objects. *)
Definition list_command (config : R2Config) (prefix : jsstring) (n : nat) : Command :=
  ListObjectsV2Command (bucketName config) prefix
    (Int (Z.min (Z.of_nat n) 1000)).

(** ** Readings that the code does not bear out *)

(** C5 as it stands: every upload of a file above the maximum is
    answered with status 400. *)
Definition oversize_always_400 : Prop :=
  ∀ env context w entries file,
    request_body (request context) = FormBody entries →
    get entries (str "file") = Some (FFile file) →
    JS.gt (file_size file) (upload.maxSize env) = true →
    ∃ r w', upload.POST env context w = (Ok r, w') ∧ status r = 400.

(** C6 as it stands: every upload of a file of an unlisted type is
    answered with the unsupported-type error. *)
Definition unlisted_always_type_error : Prop :=
  ∀ env context w entries file,
    request_body (request context) = FormBody entries →
    get entries (str "file") = Some (FFile file) →
    file_type file ∉ upload.allowedTypes →
    ∃ w', upload.POST env context w = (Ok upload.invalid_type, w').

(** C9 as it stands: the first [min L n] of all [n] objects, for every
    limit [L]. *)
Definition listing_prefix_uncapped : Prop :=
  ∀ env config w (L : nat),
    send_fault env (list_command config [] L) = None →
    ∃ w', R2Service.listImages env config (Some []) (Some (Int (Z.of_nat L)))
            (Some (Int 0)) w
          = (Ok (map (image_of env config)
                   (take (Nat.min L (length (objects w))) (objects w))), w').

(** ** Texts of numbers *)

(** A decimal digit, and the values of a text of digits. *)
Definition decimal (c : N) : bool := (48 <=? c)%N && (c <=? 57)%N.

Definition digit_values (s : jsstring) : list Z := map (fun c => Z.of_N c - 48) s.

(** The digits of [buf.toString('hex')]. *)
Definition hex_chars : jsstring := str "0123456789abcdef".

(** ** Names *)

(** Segments put together again with dots between them. *)
Fixpoint join (segs : list jsstring) : jsstring :=
  match segs with
  | [] => []
  | seg :: rest =>
      match rest with
      | [] => seg
      | _ :: _ => seg ++ 46%N :: join rest
      end
  end.

(** ** Commands *)

(** The one-year cache header of every upload. *)
Definition one_year : jsstring := str "public, max-age=31536000".

(** A put into the configured bucket with the one-year cache header. *)
Definition is_put (config : R2Config) (c : Command) : Prop :=
  ∃ k body ct, c = PutObjectCommand (bucketName config) k body ct one_year.

(** ** Routes *)

(** A route that, from every world, answers with a response whose
    status is one of [statuses]. *)
Definition answers (statuses : list Z) (m : M Response) : Prop :=
  ∀ w, ∃ r w', m w = (Ok r, w') ∧ status r ∈ statuses.

(** The answers of the deletion route. *)
Definition no_key : Response :=
  json_response 400 (JObj [("error", JStr (str "No key provided"))]%string).

Definition deleted : Response :=
  json_response 200
    (JObj [("success", JBool true);
           ("message", JStr (str "Image deleted successfully"))]%string).

Definition delete_failed (details : jsstring) : Response :=
  json_response 500
    (JObj [("error", JStr (str "Failed to delete image"));
           ("details", JStr details)]%string).

(** A deletion request with the JSON body [j]. *)
Definition delete_request (jar : gmap jsstring jsstring) (j : json) : APIContext :=
  mkContext jar [] {| request_headers := []; request_body := JsonBody j |}.

(** The request of the gallery for a page. *)
Definition gallery_request (jar : gmap jsstring jsstring) (page : Z) : APIContext :=
  mkContext jar (ImageGallery.loadImages page) Demo.get_request.

(** The answer of the listing route with the descriptions [images]. *)
Definition listed (images : list ImageInfo) : Response :=
  json_response 200
    (JObj [("success", JBool true);
           ("data", JArr (map image_json images))]%string).

(** ** Logging in *)

Definition logged_in : Response :=
  json_response 200
    (JObj [("success", JBool true);
           ("message", JStr (str "Login successful"))]%string).

(** A login request with the JSON body [j]. *)
Definition login_request (jar : gmap jsstring jsstring) (j : json) : APIContext :=
  mkContext jar [] {| request_headers := []; request_body := JsonBody j |}.

(** ** Toasts *)

(** The numbers that [toString] prints by their digits alone. *)
Definition printed_by_digits (q : number) : Prop :=
  match q with
  | NaN => True
  | Int z => Z.abs z < 2 ^ 53
  end.

(** The toast added last. *)
Definition last_toast (toasts : list useToast.ToastItem) : useToast.ToastItem :=
  default (useToast.mkToast [] [] useToast.success NaN) (last toasts).

(** * Properties *)

(** ** The session gate *)

Section SessionGate.

Implicit Types (context : APIContext) (v : jsstring).

Lemma isAuthenticated_spec context :
  auth.isAuthenticated context = true ↔ has_session context.
Proof.
  unfold auth.isAuthenticated, has_session.
  destruct (cookies context !! auth_token) as [[|c v]|] eqn:E; simpl.
  - split; [discriminate | intros (v & Hv & Hne); congruence].
  - split; [eauto | reflexivity].
  - split; [discriminate | intros (v & Hv & _); discriminate].
Qed.

Lemma isAuthenticated_false context :
  auth.isAuthenticated context = false ↔
  cookies context !! auth_token = None ∨ cookies context !! auth_token = Some [].
Proof.
  unfold auth.isAuthenticated.
  destruct (cookies context !! auth_token) as [[|c v]|]; simpl;
    intuition congruence.
Qed.

Lemma verify_GET_cases context :
  verify.GET context =
    if auth.isAuthenticated context then verified else unverified.
Proof. unfold verify.GET. by destruct (auth.isAuthenticated context). Qed.

(** A login with the configured password leaves a cookie that
    verifies. *)
Lemma login_then_verify env context w fields pw :
  request_body (request context) = JsonBody (JObj fields) →
  env_value env "ADMIN_PASSWORD" = Some pw →
  field fields "password" = Some (JStr pw) →
  ∃ jar, login.POST env context w
         = (Ok (json_response 200
                  (JObj [("success", JBool true);
                         ("message", JStr (str "Login successful"))]%string),
                jar), w)
         ∧ verify.GET (with_cookies jar context) = verified.
Proof.
  intros Hb Hpw Hf. eexists. split.
  - unfold login.POST, try_catch, bind, request_json, property, ret.
    rewrite Hb. simpl. rewrite Hf, Hpw. simpl.
    rewrite bool_decide_eq_true_2 by done. reflexivity.
  - rewrite verify_GET_cases. unfold auth.isAuthenticated, with_cookies.
    cbn [cookies]. rewrite lookup_insert_eq. reflexivity.
Qed.

(** C1: a request counts as authenticated exactly when the cookie
    [auth-token] is present with a non-empty value, whatever that value
    is; [GET /api/auth/verify] answers 200 and [{authenticated: true}]
    exactly then and 401 and [{authenticated: false}] otherwise, so
    also with no cookie and on the request that follows a logout. *)
Theorem verify_iff_cookie_nonempty context :
  (auth.isAuthenticated context = true ↔ has_session context)
  ∧ (verify.GET context = verified ↔ has_session context)
  ∧ (verify.GET context = unverified ↔ ¬ has_session context)
  ∧ (∀ v, v ≠ [] →
       verify.GET (with_cookies (<[auth_token := v]> (cookies context)) context)
       = verified)
  ∧ (cookies context !! auth_token = None → verify.GET context = unverified)
  ∧ verify.GET (with_cookies (logout.POST context).2 context) = unverified.
Proof.
  pose proof (isAuthenticated_spec context) as Hspec.
  rewrite !verify_GET_cases.
  repeat split.
  - apply Hspec.
  - apply Hspec.
  - destruct (auth.isAuthenticated context); [tauto | discriminate].
  - intros H. apply Hspec in H. by rewrite H.
  - destruct (auth.isAuthenticated context); [discriminate | intros _].
    intros H. apply Hspec in H. discriminate.
  - intros H. destruct (auth.isAuthenticated context); [|done].
    exfalso. apply H, Hspec. reflexivity.
  - intros v Hv. rewrite verify_GET_cases.
    unfold auth.isAuthenticated, with_cookies. cbn [cookies].
    rewrite lookup_insert_eq. by destruct v.
  - intros H. unfold auth.isAuthenticated. by rewrite H.
  - rewrite ?verify_GET_cases.
    unfold auth.isAuthenticated, with_cookies, logout.POST. cbn [cookies snd].
    by rewrite lookup_delete_eq.
Qed.

End SessionGate.

(** C1 at a request that carries a made-up cookie. *)
Lemma verify_iff_cookie_nonempty_witness :
  verify.GET (mkContext Demo.session [] Demo.get_request) = verified
  ∧ verify.GET (mkContext ∅ [] Demo.get_request) = unverified.
Proof.
  pose proof (verify_iff_cookie_nonempty (mkContext Demo.session [] Demo.get_request))
    as (_ & H200 & _).
  pose proof (verify_iff_cookie_nonempty (mkContext ∅ [] Demo.get_request))
    as (_ & _ & _ & _ & H401 & _).
  split.
  - apply H200. exists (str "anything"). split; [reflexivity | discriminate].
  - apply H401. reflexivity.
Defined.

(** ** Which routes the gate protects *)

Lemma upload_POST_unauthenticated env context w :
  auth.isAuthenticated context = false →
  upload.POST env context w = (Ok auth_required, w).
Proof.
  intros H. unfold upload.POST, auth.requireAuth. rewrite H. reflexivity.
Qed.

(** C2: [POST /api/upload] answers a request whose session cookie is
    missing or empty with 401 and does nothing else (the world is left as
    it was: no call is recorded), while [GET] and [DELETE /api/images]
    never look at the cookies: two requests that differ only there get
    the same response and make the same calls. *)
Theorem gate_covers_upload_only env w (c1 c2 : APIContext) :
  (cookies c1 !! auth_token = None ∨ cookies c1 !! auth_token = Some [] →
   upload.POST env c1 w = (Ok auth_required, w))
  ∧ (same_but_cookies c1 c2 →
     images.GET env c1 w = images.GET env c2 w
     ∧ images.DELETE env c1 w = images.DELETE env c2 w).
Proof.
  split.
  - intros H. apply upload_POST_unauthenticated, isAuthenticated_false, H.
  - intros [Hp Hb]. split.
    + unfold images.GET. by rewrite Hp.
    + unfold images.DELETE, request_json. by rewrite Hb.
Qed.

(** C2 on the five-object bucket: an anonymous upload is turned away,
    an anonymous listing is answered like one with a session. *)
Lemma gate_covers_upload_only_witness :
  upload.POST Demo.env (mkContext ∅ [] Demo.get_request) Demo.five
  = (Ok auth_required, Demo.five)
  ∧ images.GET Demo.env (mkContext ∅ [] Demo.get_request) Demo.five
    = images.GET Demo.env (mkContext Demo.session [] Demo.get_request) Demo.five.
Proof.
  pose proof (gate_covers_upload_only Demo.env Demo.five
                (mkContext ∅ [] Demo.get_request)
                (mkContext Demo.session [] Demo.get_request)) as [Hup Him].
  split.
  - apply Hup. left. reflexivity.
  - apply Him. split; reflexivity.
Defined.

(** ** The checks of the upload route *)

Section UploadChecks.

Variable env : Env.
Variables (context : APIContext) (w : World).
Variable entries : list (jsstring * FormDataEntryValue).
Variable file : File.

Hypothesis form_body : request_body (request context) = FormBody entries.
Hypothesis file_field : get entries (str "file") = Some (FFile file).

Lemma upload_POST_file :
  upload.POST env context w =
    if negb (auth.isAuthenticated context) then (Ok auth_required, w)
    else if JS.gt (file_size file) (upload.maxSize env)
    then (Ok (upload.too_large env), w)
    else if negb (JS.includes upload.allowedTypes (file_type file))
    then (Ok upload.invalid_type, w)
    else stored_response env file (upload.options_of entries) w.
Proof using form_body file_field.
  unfold upload.POST, auth.requireAuth, stored_response.
  destruct (auth.isAuthenticated context); [|reflexivity].
  cbn [negb]. unfold try_catch at 1, bind at 1, request_formData.
  rewrite form_body. cbn [ret]. rewrite file_field.
  destruct (JS.gt _ _); [reflexivity|].
  destruct (JS.includes _ _); reflexivity.
Qed.

(** C5, amended: a file larger than the configured maximum is never
    stored: the route makes no call at all (the world is left as it
    was, so no put is recorded).  Past the gate the answer is the 400
    of the size limit; a request without a session gets the 401 of
    the gate instead.  The maximum is 10485760 unless configured. *)
Theorem oversize_upload_not_stored :
  JS.gt (file_size file) (upload.maxSize env) = true →
  upload.POST env context w
  = (Ok (if auth.isAuthenticated context
         then upload.too_large env else auth_required), w)
  ∧ status (upload.too_large env) = 400
  ∧ (env_value env "MAX_FILE_SIZE" = None →
     upload.maxSize env = Int 10485760).
Proof using form_body file_field.
  intros Hgt. rewrite upload_POST_file, Hgt.
  split; [by destruct (auth.isAuthenticated context)|].
  split; [reflexivity|].
  intros Hnone. unfold upload.maxSize. rewrite Hnone. reflexivity.
Qed.

(** C6, amended: a file whose declared type is outside the allow-list
    is never stored: the route makes no call at all.  Past the gate
    and the size check the answer is the 400 of the unsupported type;
    before that a request without a session gets the 401 of the gate
    and a file over the maximum the 400 of the size limit. *)
Theorem unlisted_type_not_stored :
  file_type file ∉ [str "image/jpeg"; str "image/png"; str "image/gif";
                    str "image/webp"; str "image/svg+xml"] →
  upload.POST env context w
  = (Ok (if auth.isAuthenticated context
         then if JS.gt (file_size file) (upload.maxSize env)
              then upload.too_large env else upload.invalid_type
         else auth_required), w)
  ∧ status upload.invalid_type = 400.
Proof using form_body file_field.
  intros Hnot. rewrite upload_POST_file.
  unfold JS.includes. rewrite bool_decide_eq_false_2 by exact Hnot.
  split; [|reflexivity].
  destruct (auth.isAuthenticated context); [|reflexivity].
  by destruct (JS.gt _ _).
Qed.

End UploadChecks.

(** C5 as it stands fails: with [MAX_FILE_SIZE=4], a five-byte PNG
    sent without a session is answered 401 by the gate, not 400. *)
Lemma oversize_anonymous_is_401 :
  JS.gt (file_size Samples.dot) (upload.maxSize Demo.small_env) = true
  ∧ upload.POST Demo.small_env (Samples.upload_of ∅ Samples.dot []) Demo.empty
    = (Ok auth_required, Demo.empty)
  ∧ ¬ oversize_always_400.
Proof.
  split; [reflexivity|]. split; [reflexivity|].
  intros H.
  destruct (H Demo.small_env (Samples.upload_of ∅ Samples.dot []) Demo.empty
              _ Samples.dot eq_refl eq_refl eq_refl) as (r & w' & Hrun & Hst).
  vm_compute in Hrun. injection Hrun as <- _. vm_compute in Hst. discriminate.
Qed.

(** C5, amended, on the same file sent with a session. *)
Lemma oversize_upload_not_stored_witness :
  upload.POST Demo.small_env
    (Samples.upload_of Demo.session Samples.dot []) Demo.five
  = (Ok (upload.too_large Demo.small_env), Demo.five).
Proof.
  pose proof (oversize_upload_not_stored Demo.small_env
                (Samples.upload_of Demo.session Samples.dot []) Demo.five
                _ Samples.dot eq_refl eq_refl eq_refl) as [H _].
  exact H.
Defined.

(** C6 as it stands fails: a [text/plain] file sent without a session
    is answered 401 by the gate; sent with one, but over the maximum, it
    is answered with the size-limit error. *)
Lemma unlisted_type_other_errors :
  (file_type Samples.note ∉ upload.allowedTypes)
  ∧ upload.POST Demo.env (Samples.upload_of ∅ Samples.note []) Demo.empty
    = (Ok auth_required, Demo.empty)
  ∧ upload.POST Demo.small_env
      (Samples.upload_of Demo.session Samples.note []) Demo.empty
    = (Ok (upload.too_large Demo.small_env), Demo.empty)
  ∧ (upload.too_large Demo.small_env ≠ upload.invalid_type)
  ∧ ¬ unlisted_always_type_error.
Proof.
  assert (Hnot : file_type Samples.note ∉ upload.allowedTypes).
  { apply (bool_decide_unpack (file_type Samples.note ∉ upload.allowedTypes)).
    vm_compute. exact I. }
  split; [exact Hnot|]. split; [reflexivity|]. split; [reflexivity|].
  split; [intros H; vm_compute in H; discriminate|].
  intros H.
  destruct (H Demo.env (Samples.upload_of ∅ Samples.note []) Demo.empty
              _ Samples.note eq_refl eq_refl Hnot) as (w' & Hrun).
  vm_compute in Hrun. discriminate.
Qed.

(** C6, amended, on the same file sent with a session and within the
    maximum. *)
Lemma unlisted_type_not_stored_witness :
  upload.POST Demo.env
    (Samples.upload_of Demo.session Samples.note []) Demo.five
  = (Ok upload.invalid_type, Demo.five).
Proof.
  assert (Hnot : file_type Samples.note ∉ upload.allowedTypes).
  { apply (bool_decide_unpack (file_type Samples.note ∉ upload.allowedTypes)).
    vm_compute. exact I. }
  pose proof (unlisted_type_not_stored Demo.env
                (Samples.upload_of Demo.session Samples.note []) Demo.five
                _ Samples.note eq_refl eq_refl Hnot) as [H _].
  exact H.
Defined.

(** ** The image normalizer *)

Section Normalizer.

Variable env : Env.
Implicit Types (b : bytes) (t : jsstring) (options : UploadOptions) (w : World).

Lemma processImage_skips b t options w :
  encodes t options = false →
  R2Service.processImage env b t options w = (Ok (unchanged env b t), w).
Proof.
  unfold encodes, R2Service.processImage. intros H.
  destruct (default false (compressToWebp options)), (JS.startsWith t _);
    try discriminate; reflexivity.
Qed.

Lemma processImage_encodes b t options w :
  encodes t options = true →
  R2Service.processImage env b t options w =
    let q := JS.or_num (quality options) (Int 80) in
    match sharp_webp env b q with
    | Some out => (Ok (reencoded out), record w [SharpWebp b q])
    | None => (Ok (unchanged env b t), record w [SharpWebp b q; warning])
    end.
Proof.
  unfold encodes, R2Service.processImage. intros H.
  apply andb_true_iff in H as [-> ->]. cbn [negb orb].
  cbv [try_catch bind R2Service.sharp emit ret throw record warning objects events].
  destruct (sharp_webp env b _); [reflexivity|].
  by rewrite <- app_assoc.
Qed.

Lemma svg_encodes options :
  compressToWebp options = Some true →
  encodes (str "image/svg+xml") options = true.
Proof. unfold encodes. by intros ->. Qed.

(** What [processImage] does with an SVG when compression is on and
    the codec accepts the input. *)
Lemma processImage_svg b options w out :
  compressToWebp options = Some true →
  sharp_webp env b (JS.or_num (quality options) (Int 80)) = Some out →
  R2Service.processImage env b (str "image/svg+xml") options w
  = (Ok (reencoded out),
     record w [SharpWebp b (JS.or_num (quality options) (Int 80))]).
Proof.
  intros Hc Hs. rewrite processImage_encodes by by apply svg_encodes.
  cbn zeta. by rewrite Hs.
Qed.

End Normalizer.

(** ** Uploading after the normalizer *)

Lemma sent_app evs evs' : sent (evs ++ evs') = sent evs ++ sent evs'.
Proof. apply omap_app. Qed.

Lemma codec_calls_app evs evs' :
  codec_calls (evs ++ evs') = codec_calls evs ++ codec_calls evs'.
Proof. apply omap_app. Qed.

Section Upload.

Variables (env : Env) (config : R2Config).
Implicit Types (b : bytes) (t n : jsstring) (options : UploadOptions)
               (p : Processed) (w : World).

Lemma uploadImage_steps file name options w b t n :
  R2Service.resolve env file name = (b, t, n) →
  R2Service.uploadImage env config file name options w =
    match R2Service.processImage env b t options w with
    | (Ok p, w1) => finish env config n options p w1
    | (Throw e, w1) => (Throw e, w1)
    end.
Proof.
  intros Hr. unfold R2Service.uploadImage. rewrite Hr.
  unfold bind at 1.
  destruct (R2Service.processImage env b t options w) as [[p|e] w1];
    [|reflexivity].
  unfold finish, put_command, info_of, key_of.
  cbv [bind Store.send emit ret throw record Store.run objects events].
  by destruct (send_fault env _).
Qed.

(** C7: when the codec raises, [processImage] hands back the bytes,
    the type and the extension of the input (after a warning), and
    [uploadImage] goes on as it does with compression off: same
    outcome, same bucket, same commands sent; it raises only when the
    store does. *)
Theorem encode_failure_falls_back file name options w b t n :
  R2Service.resolve env file name = (b, t, n) →
  compressToWebp options = Some true →
  JS.startsWith t (str "image/") = true →
  sharp_webp env b (JS.or_num (quality options) (Int 80)) = None →
  let failed := R2Service.uploadImage env config file name options w in
  let plain := R2Service.uploadImage env config file name (uncompressed options) w in
  R2Service.processImage env b t options w
  = (Ok {| buffer := b; processed_mimeType := t;
           ext := JS.or_str (mime_extension env t) (str "bin") |},
     record w [SharpWebp b (JS.or_num (quality options) (Int 80)); warning])
  ∧ R2Service.processImage env b t (uncompressed options) w
    = (Ok {| buffer := b; processed_mimeType := t;
             ext := JS.or_str (mime_extension env t) (str "bin") |}, w)
  ∧ failed.1 = plain.1
  ∧ objects failed.2 = objects plain.2
  ∧ sent (events failed.2) = sent (events plain.2)
  ∧ (∀ e, failed.1 = Throw e → ∃ c, send_fault env c = Some e).
Proof.
  intros Hr Hc Ht Hs.
  assert (Henc : encodes t options = true)
    by (unfold encodes; rewrite Hc, Ht; reflexivity).
  assert (Hfail : R2Service.processImage env b t options w
                  = (Ok (unchanged env b t),
                     record w [SharpWebp b (JS.or_num (quality options) (Int 80));
                               warning])).
  { rewrite processImage_encodes by exact Henc. cbn zeta. by rewrite Hs. }
  assert (Hplain : R2Service.processImage env b t (uncompressed options) w
                   = (Ok (unchanged env b t), w))
    by (apply processImage_skips; reflexivity).
  cbn zeta.
  rewrite (uploadImage_steps file name options w b t n Hr), Hfail.
  rewrite (uploadImage_steps file name (uncompressed options) w b t n Hr), Hplain.
  split; [reflexivity|]. split; [reflexivity|].
  unfold finish, put_command, key_of, uncompressed. cbn [useHashName].
  destruct (send_fault env _) as [msg|] eqn:Hfault; cbn [fst snd objects events record].
  - repeat split.
    + rewrite !sent_app.
      change (sent [SharpWebp _ _; warning]) with (@nil Command).
      by rewrite app_nil_r.
    + intros e [= <-]. eauto.
  - repeat split.
    + rewrite !sent_app.
      change (sent [SharpWebp _ _; warning]) with (@nil Command).
      by rewrite app_nil_r.
    + discriminate.
Qed.

End Upload.

(** C7 on a PNG sent with quality 500, which the codec of the sample
    deployment refuses. *)
Lemma encode_failure_falls_back_witness :
  let options := {| useHashName := Some false; compressToWebp := Some true;
                    quality := Some (Int 500) |} in
  (R2Service.uploadImage Demo.env Demo.config (IsFile Samples.dot) [] options
     Demo.empty).1
  = (R2Service.uploadImage Demo.env Demo.config (IsFile Samples.dot) []
       (uncompressed options) Demo.empty).1.
Proof.
  cbn zeta.
  pose proof (encode_failure_falls_back Demo.env Demo.config
                (IsFile Samples.dot) []
                {| useHashName := Some false; compressToWebp := Some true;
                   quality := Some (Int 500) |}
                Demo.empty _ _ _ eq_refl eq_refl eq_refl eq_refl)
    as (_ & _ & H & _).
  exact H.
Defined.

(** ** An SVG sent with compression on *)

(** C3, on the code: [processImage] has no test for SVG.  With
    compression on, the bytes of an SVG go to the codec like those of
    any other image, and whenever the codec draws them the result is
    the codec's output, typed [image/webp] with the extension [webp],
    and not the input with its type: the upload route stores that
    output under a [.webp] key and answers 200 with the type
    [image/webp].  (An SVG on which the codec raises comes back as it
    was, by the fallback that every image has.) *)
Theorem svg_is_reencoded_when_drawn env context w entries file out :
  request_body (request context) = FormBody entries →
  get entries (str "file") = Some (FFile file) →
  auth.isAuthenticated context = true →
  JS.gt (file_size file) (upload.maxSize env) = false →
  file_type file = str "image/svg+xml" →
  entry_is (get entries (str "enableWebpCompression")) (str "true") = true →
  sharp_webp env (file_content file)
    (JS.or_num (quality (upload.options_of entries)) (Int 80)) = Some out →
  let options := upload.options_of entries in
  let q := JS.or_num (quality options) (Int 80) in
  let k := R2Service.generateFileName env
             (JS.replace_ext (file_name file) (str ".webp"))
             (useHashName options) in
  let put := PutObjectCommand (bucketName (getR2Config env)) k out
               (str "image/webp") one_year in
  R2Service.processImage env (file_content file) (file_type file) options w
  = (Ok {| buffer := out; processed_mimeType := str "image/webp";
           ext := str "webp" |},
     record w [SharpWebp (file_content file) q])
  ∧ str "image/webp" ≠ file_type file
  ∧ (send_fault env put = None →
     upload.POST env context w
     = (Ok (json_response 200
              (JObj [("success", JBool true);
                     ("data", image_json
                                {| key := k;
                                   url := publicUrl (getR2Config env) ++ str "/" ++ k;
                                   size := Int (Z.of_nat (length out));
                                   mimeType := str "image/webp";
                                   uploadedAt := now env |})]%string)),
        {| objects := Store.put (mkObject k out (str "image/webp") one_year
                                   (now env)) (objects w);
           events := events w ++ [SharpWebp (file_content file) q; Send put] |})).
Proof.
  intros Hbody Hfile Hauth Hsmall Htype Hon Hdrawn options q k put.
  assert (Hc : compressToWebp options = Some true)
    by (unfold options, upload.options_of; cbn [compressToWebp]; by rewrite Hon).
  assert (Hp : R2Service.processImage env (file_content file) (file_type file)
                 options w
               = (Ok (reencoded out), record w [SharpWebp (file_content file) q])).
  { rewrite Htype. by apply processImage_svg. }
  split; [exact Hp|]. split; [by rewrite Htype|].
  intros Hok.
  rewrite (upload_POST_file env context w entries file Hbody Hfile).
  rewrite Hauth, Hsmall. cbn [negb].
  replace (JS.includes upload.allowedTypes (file_type file)) with true
    by (by rewrite Htype).
  cbn [negb]. unfold stored_response, try_catch, bind at 1.
  rewrite (uploadImage_steps env (getR2Config env) (IsFile file) (file_name file)
             _ w _ _ _ eq_refl).
  fold options. rewrite Hp.
  unfold finish, put_command, key_of, info_of, reencoded, record.
  cbn [ext buffer processed_mimeType objects events].
  change (str "." ++ str "webp") with (str ".webp").
  fold k. fold one_year. fold put. rewrite Hok.
  cbv [ret bind]. by rewrite <- app_assoc.
Qed.

(** C3 on the sample drawing, sent with compression on at quality 80:
    what is stored is the picture, typed [image/webp], under a [.webp]
    key. *)
Lemma svg_is_reencoded_when_drawn_witness :
  ∃ r w',
    upload.POST Studio.env
      (Samples.upload_of Demo.session Studio.square
         [("enableWebpCompression", "true"); ("quality", "80")]%string)
      Demo.empty
    = (Ok r, w')
    ∧ status r = 200
    ∧ objects w'
      = [mkObject (str "1700000000000_square.webp") Studio.picture
           (str "image/webp") one_year 1700000000000]
    ∧ Studio.picture ≠ file_content Studio.square.
Proof.
  destruct (svg_is_reencoded_when_drawn Studio.env
              (Samples.upload_of Demo.session Studio.square
                 [("enableWebpCompression", "true"); ("quality", "80")]%string)
              Demo.empty _ Studio.square Studio.picture
              eq_refl eq_refl eq_refl eq_refl eq_refl eq_refl eq_refl)
    as (_ & _ & H).
  eexists _, _. split; [exact (H eq_refl)|].
  split; [reflexivity|]. split; [reflexivity | discriminate].
Defined.

(** ** The quality handed to the codec *)

Lemma allowed_is_image t :
  JS.includes upload.allowedTypes t = true →
  JS.startsWith t (str "image/") = true.
Proof.
  unfold JS.includes, upload.allowedTypes. intros H.
  apply bool_decide_eq_true_1 in H.
  repeat (apply elem_of_cons in H as [-> | H]; [reflexivity|]).
  by apply elem_of_nil in H.
Qed.

Lemma codec_calls_finish env config n options p w :
  codec_calls (events (finish env config n options p w).2)
  = codec_calls (events w).
Proof.
  unfold finish. destruct (send_fault env _); cbn [snd events record];
    rewrite codec_calls_app; apply app_nil_r.
Qed.

(** The route past its checks calls the codec once, on the bytes of
    the file, with the quality read from the form (80 in place of a
    missing or empty field, of 0 and of NaN). *)
Lemma stored_response_codec_call env file entries w :
  JS.includes upload.allowedTypes (file_type file) = true →
  entry_is (get entries (str "enableWebpCompression")) (str "true") = true →
  codec_calls (events (stored_response env file (upload.options_of entries) w).2)
  = codec_calls (events w)
    ++ [(file_content file,
         JS.or_num
           (Some (JS.parseInt (entry_or (get entries (str "quality")) (str "80"))))
           (Int 80))].
Proof.
  intros Hin Hon. apply allowed_is_image in Hin.
  unfold stored_response, try_catch, bind at 1.
  rewrite (uploadImage_steps env (getR2Config env) (IsFile file) (file_name file)
             _ w (file_content file) (file_type file) (file_name file) eq_refl).
  rewrite processImage_encodes
    by (unfold encodes, upload.options_of; cbn [compressToWebp];
        rewrite Hon, Hin; reflexivity).
  cbn zeta. cbn [quality upload.options_of].
  set (q := JS.or_num _ _).
  destruct (sharp_webp env (file_content file) q).
  all: match goal with
       | |- context [finish ?e ?c ?n ?o ?p ?w0] =>
           pose proof (codec_calls_finish e c n o p w0) as Hfin;
           destruct (finish e c n o p w0) as [[info|msg] w1]
       end.
  all: cbn [snd] in Hfin; cbv [ret emit bind]; cbn [snd events];
    rewrite ?codec_calls_app, Hfin; cbn [record events];
    rewrite codec_calls_app; cbn [codec_calls omap];
    rewrite ?app_nil_r; reflexivity.
Qed.

(** C10: past the two tests of [processImage] the codec is called with
    the quality of the options whenever that is a number other than 0,
    whether or not it lies between 1 and 100, and with 80 when it is 0,
    NaN or absent; the route reads it with [parseInt] from the form
    field, or from ['80'] when the field is missing or empty. *)
Theorem quality_is_not_validated env b t options w :
  compressToWebp options = Some true →
  JS.startsWith t (str "image/") = true →
  let calls := codec_calls (events (R2Service.processImage env b t options w).2) in
  (∀ z, quality options = Some (Int z) → z ≠ 0 →
        calls = codec_calls (events w) ++ [(b, Int z)])
  ∧ (quality options = None ∨ quality options = Some NaN
     ∨ quality options = Some (Int 0) →
     calls = codec_calls (events w) ++ [(b, Int 80)])
  ∧ (∀ entries,
       quality (upload.options_of entries)
       = Some (JS.parseInt (entry_or (get entries (str "quality")) (str "80"))))
  ∧ (∀ entries, get entries (str "quality") = None
                ∨ get entries (str "quality") = Some (FString []) →
       quality (upload.options_of entries) = Some (Int 80))
  ∧ JS.parseInt (str "500") = Int 500
  ∧ JS.parseInt (str "-5") = Int (-5)
  ∧ JS.parseInt (str "0") = Int 0
  ∧ JS.parseInt (str "abc") = NaN.
Proof.
  intros Hc Ht calls.
  assert (Hcalls : calls = codec_calls (events w)
                           ++ [(b, JS.or_num (quality options) (Int 80))]).
  { subst calls. rewrite processImage_encodes
      by (unfold encodes; rewrite Hc, Ht; reflexivity).
    cbn zeta. destruct (sharp_webp env b _); cbn [snd record events];
      rewrite codec_calls_app; reflexivity. }
  split; [|split; [|split; [|split]]].
  - intros z Hq Hz. rewrite Hcalls, Hq. unfold JS.or_num, JS.truthy_num.
    by rewrite (proj2 (Z.eqb_neq z 0) Hz).
  - intros [Hq | [Hq | Hq]]; rewrite Hcalls, Hq; reflexivity.
  - reflexivity.
  - intros entries [Hq | Hq]; unfold upload.options_of; cbn [quality];
      rewrite Hq; reflexivity.
  - repeat split; reflexivity.
Qed.

(** C10 on an upload with [quality=500]: the codec is asked for 500. *)
Lemma quality_is_not_validated_witness :
  codec_calls
    (events (upload.POST Demo.env
               (Samples.upload_of Demo.session Samples.dot
                  [("enableWebpCompression", "true"); ("quality", "500")]%string)
               Demo.empty).2)
  = [(file_content Samples.dot, Int 500)]
  ∧ codec_calls
      (events (R2Service.processImage Demo.env (file_content Samples.dot)
                 (str "image/png")
                 {| useHashName := None; compressToWebp := Some true;
                    quality := Some (Int 500) |} Demo.empty).2)
    = [(file_content Samples.dot, Int 500)].
Proof.
  split; [reflexivity|].
  pose proof (quality_is_not_validated Demo.env (file_content Samples.dot)
                (str "image/png")
                {| useHashName := None; compressToWebp := Some true;
                   quality := Some (Int 500) |} Demo.empty eq_refl eq_refl)
    as (H & _).
  apply (H 500); [reflexivity | discriminate].
Defined.

(** ** The naming policy *)

Lemma in_name_class_spec c : JS.in_name_class c = bool_decide (c ∈ name_chars).
Proof.
  destruct (decide (c < 128)%N) as [Hlt | Hge].
  - assert (Hall : forallb (fun c => Bool.eqb (JS.in_name_class c)
                                        (bool_decide (c ∈ name_chars)))
                     (map N.of_nat (seq 0 128)) = true)
      by (vm_compute; reflexivity).
    rewrite forallb_forall in Hall. apply Bool.eqb_prop, Hall.
    apply in_map_iff. exists (N.to_nat c). split; [lia|]. apply in_seq. lia.
  - rewrite bool_decide_eq_false_2.
    + unfold JS.in_name_class.
      rewrite (proj2 (N.leb_gt c 122)), (proj2 (N.leb_gt c 90)),
        (proj2 (N.leb_gt c 57)), (proj2 (N.eqb_neq c 46)),
        (proj2 (N.eqb_neq c 45)) by lia.
      by rewrite !andb_false_r.
    + intros Hin.
      assert (Hsmall : Forall (fun x => (x < 128)%N) name_chars) by compute_done.
      rewrite Forall_forall in Hsmall. apply Hge, Hsmall, Hin.
Qed.

Lemma replace_unsafe_lookup name i :
  JS.replace_unsafe name !! i
  = (fun c => if bool_decide (c ∈ name_chars) then c else 95%N) <$> name !! i.
Proof.
  unfold JS.replace_unsafe. revert i.
  induction name as [|c name IH]; intros [|i]; cbn; try reflexivity.
  - by rewrite in_name_class_spec.
  - apply IH.
Qed.

(** C8: without the hash option the name is the decimal text of the
    timestamp, an underscore, and the file name in which every code unit
    outside [A-Za-z0-9.-] has become an underscore; ["a b.png"] at [T]
    gives ["T_a_b.png"]. *)
Theorem default_name_is_timestamp_and_clean_name env name :
  (∃ clean,
     R2Service.generateFileName env name None
     = JS.to_string (Int (now env)) ++ str "_" ++ clean
     ∧ length clean = length name
     ∧ ∀ i, clean !! i
            = (fun c => if bool_decide (c ∈ name_chars) then c else 95%N)
                <$> name !! i)
  ∧ R2Service.generateFileName env name (Some false)
    = R2Service.generateFileName env name None
  ∧ R2Service.generateFileName env (str "a b.png") None
    = JS.to_string (Int (now env)) ++ str "_a_b.png"
  ∧ JS.to_string (Int 1700000000000) = str "1700000000000".
Proof.
  split; [|repeat split].
  exists (JS.replace_unsafe name). split; [reflexivity|]. split.
  - apply length_map.
  - apply replace_unsafe_lookup.
Qed.

(** ** Listing *)

Lemma slice_nat {A} (l : list A) (O L : nat) :
  JS.slice l (Int (Z.of_nat O)) (Int (Z.of_nat O + Z.of_nat L))
  = take L (drop O l).
Proof.
  unfold JS.slice, JS.rel_index.
  rewrite (proj2 (Z.ltb_ge (Z.of_nat O) 0)) by lia.
  rewrite (proj2 (Z.ltb_ge (Z.of_nat O + Z.of_nat L) 0)) by lia.
  destruct (decide (length l ≤ O)%nat) as [Hout | Hin].
  - rewrite !drop_ge by lia. by rewrite !take_nil.
  - replace (Z.to_nat (Z.min (Z.of_nat O) (Z.of_nat (length l)))) with O by lia.
    destruct (decide (L ≤ length l - O)%nat).
    + f_equal. lia.
    + rewrite !take_ge; [reflexivity | rewrite length_drop; lia..].
Qed.

Lemma contents_or_empty es :
  match Store.contents es with Some cs => cs | None => [] end = es.
Proof. by destruct es. Qed.

Section Listing.

Variables (env : Env) (config : R2Config).
Implicit Types (prefix : jsstring) (w : World).

(** [listImages] with a limit and an offset: one call for
    [min (limit + offset) 1000] objects, of which the slice from
    [offset] on, [limit] long, is described. *)
Lemma listImages_slice prefix (L O : nat) w :
  send_fault env (list_command config prefix (L + O)) = None →
  R2Service.listImages env config (Some prefix)
    (Some (Int (Z.of_nat L))) (Some (Int (Z.of_nat O))) w
  = (Ok (map (image_of env config)
           (take L (drop O (take (Nat.min (L + O) 1000) (store_listing prefix w))))),
     record w [Send (list_command config prefix (L + O))]).
Proof.
  unfold list_command. intros Hok.
  unfold R2Service.listImages.
  cbv [default from_option id JS.add JS.min bind Store.send emit ret throw].
  replace (Z.of_nat L + Z.of_nat O) with (Z.of_nat (L + O)) by lia.
  rewrite Hok. unfold Store.run.
  rewrite (proj2 (Z.leb_le 0 (Z.min (Z.of_nat (L + O)) 1000))) by lia.
  cbn [objects events]. rewrite contents_or_empty, slice_nat.
  unfold record. f_equal. f_equal.
  rewrite map_map, skipn_map, firstn_map.
  unfold Store.page, store_listing.
  replace (Z.to_nat (Z.min (Z.min (Z.of_nat (L + O)) 1000) 1000))
    with (Nat.min (L + O) 1000) by lia.
  apply map_ext. intros o. unfold image_of, Store.entry.
  cbn [Key Size LastModified]. cbv [default from_option id JS.or_num JS.truthy_num].
  f_equal. by destruct (_ =? 0) eqn:E; [apply Z.eqb_eq in E; rewrite E|].
Qed.

End Listing.

Lemma take_min_length {A} (n : nat) (l : list A) :
  take n l = take (Nat.min n (length l)) l.
Proof.
  destruct (decide (n ≤ length l)%nat).
  - f_equal. lia.
  - rewrite !take_ge; [reflexivity | lia..].
Qed.

(** C9, amended: with offset 0 (passed or left to its default) and
    limit [L], [listImages] returns the first [min L (min 1000 n)] of the
    [n] objects the store holds under the prefix, in the order of the
    store, after a single listing call; so a prefix of the listing, of
    length 2 for a limit of 2 over five objects. *)
Theorem listing_is_capped_prefix env config prefix (L : nat) w :
  send_fault env (list_command config prefix L) = None →
  let listing := store_listing prefix w in
  ∃ images,
    (∀ offset, offset = None ∨ offset = Some (Int 0) →
       R2Service.listImages env config (Some prefix) (Some (Int (Z.of_nat L)))
         offset w
       = (Ok images, record w [Send (list_command config prefix L)]))
    ∧ images = map (image_of env config)
                 (take (Nat.min L (Nat.min 1000 (length listing))) listing)
    ∧ images `prefix_of` map (image_of env config) listing
    ∧ length images = Nat.min L (Nat.min 1000 (length listing))
    ∧ (L = 2%nat → length listing = 5%nat → length images = 2%nat).
Proof.
  intros Hok listing.
  assert (Hlen : length (take (Nat.min L (Nat.min 1000 (length listing))) listing)
                 = Nat.min L (Nat.min 1000 (length listing)))
    by (rewrite length_take; lia).
  eexists. split; [|split; [reflexivity|split; [|split]]].
  - assert (Hrun : R2Service.listImages env config (Some prefix)
                     (Some (Int (Z.of_nat L))) (Some (Int 0)) w
                   = (Ok (map (image_of env config)
                            (take (Nat.min L (Nat.min 1000 (length listing))) listing)),
                      record w [Send (list_command config prefix L)])).
    { pose proof (listImages_slice env config prefix L 0 w) as H.
      rewrite Nat.add_0_r in H. specialize (H Hok).
      change (Z.of_nat 0) with 0 in H. rewrite H. f_equal. f_equal. f_equal.
      rewrite drop_0, take_take. fold listing.
      rewrite (take_min_length _ listing). f_equal. lia. }
    intros offset [-> | ->]; exact Hrun.
  - exists (map (image_of env config)
              (drop (Nat.min L (Nat.min 1000 (length listing))) listing)).
    by rewrite <- map_app, take_drop.
  - rewrite length_map. exact Hlen.
  - intros -> H5. rewrite length_map, Hlen, H5. reflexivity.
Qed.

(** C9 on the bucket of five objects and a limit of two. *)
Lemma listing_is_capped_prefix_witness :
  R2Service.listImages Demo.env Demo.config (Some []) (Some (Int 2)) None Demo.five
  = (Ok (map (image_of Demo.env Demo.config) (take 2 (objects Demo.five))),
     record Demo.five [Send (list_command Demo.config [] 2)]).
Proof.
  destruct (listing_is_capped_prefix Demo.env Demo.config [] 2 Demo.five eq_refl)
    as (images & Hrun & -> & _).
  exact (Hrun None (or_introl eq_refl)).
Defined.

Lemma store_listing_all w : store_listing [] w = objects w.
Proof.
  unfold store_listing. induction (objects w) as [|o os IH]; [reflexivity|].
  rewrite filter_cons_True by (by destruct (object_key o)). by rewrite IH.
Qed.

Lemma listing_of_1001 env config w :
  send_fault env (list_command config [] 1001) = None →
  length (objects w) = 1001%nat →
  ∃ images,
    R2Service.listImages env config (Some []) (Some (Int 1001)) (Some (Int 0)) w
    = (Ok images, record w [Send (list_command config [] 1001)])
    ∧ length images = 1000%nat.
Proof.
  intros Hok Hn. eexists. split.
  - exact (listImages_slice env config [] 1001 0 w Hok).
  - rewrite length_map, length_take, drop_0, length_take, store_listing_all, Hn.
    reflexivity.
Qed.

Lemma uncapped_refuted_by env config w :
  send_fault env (list_command config [] 1001) = None →
  length (objects w) = 1001%nat →
  ¬ listing_prefix_uncapped.
Proof.
  intros Hok Hn H.
  destruct (H env config w 1001%nat Hok) as (w' & Hall).
  destruct (listing_of_1001 env config w Hok Hn) as (images & Hrun & Hlen).
  change (Z.of_nat 1001) with 1001 in Hall.
  rewrite Hrun in Hall. injection Hall as -> _.
  rewrite length_map, length_take, Hn in Hlen. discriminate.
Qed.

(** C9 as it stands fails: over 1001 objects a limit of 1001 returns
    1000 of them. *)
Lemma listing_stops_at_1000 :
  length (objects Crowd.world) = 1001%nat
  ∧ (∃ images,
       R2Service.listImages Demo.env Demo.config (Some []) (Some (Int 1001))
         (Some (Int 0)) Crowd.world
       = (Ok images, record Crowd.world [Send (list_command Demo.config [] 1001)])
       ∧ length images = 1000%nat)
  ∧ ¬ listing_prefix_uncapped.
Proof.
  assert (Hn : length (objects Crowd.world) = 1001%nat) by (vm_compute; reflexivity).
  split; [exact Hn|]. split.
  - exact (listing_of_1001 Demo.env Demo.config Crowd.world eq_refl Hn).
  - exact (uncapped_refuted_by Demo.env Demo.config Crowd.world eq_refl Hn).
Qed.

(** ** The listing route *)

(** An [offset] parameter in the query changes nothing: the route
    reads [limit] and [prefix] only and leaves the offset of
    [listImages] to its default. *)
Lemma images_GET_ignores_offset env context w o :
  images.GET env
    (mkContext (cookies context) ((str "offset", o) :: searchParams context)
       (request context)) w
  = images.GET env context w.
Proof. reflexivity. Qed.

(** C4, on the code: over the bucket of five objects
    [GET /api/images?limit=2&offset=2] answers like [offset=0], with the
    first two objects, while [listImages] called with that offset
    returns the third and the fourth. *)
Theorem listing_route_drops_offset :
  let page ofs :=
    mkContext ∅ [(str "limit", str "2"); (str "offset", str ofs)]
      Demo.get_request in
  images.GET Demo.env (page "2"%string) Demo.five
  = images.GET Demo.env (page "0"%string) Demo.five
  ∧ images.GET Demo.env (page "2"%string) Demo.five
    = (Ok (json_response 200
             (JObj [("success", JBool true);
                    ("data", JArr (map image_json
                                     (map (image_of Demo.env Demo.config)
                                        (take 2 (objects Demo.five)))))]%string)),
       record Demo.five [Send (list_command Demo.config [] 2)])
  ∧ R2Service.listImages Demo.env Demo.config (Some []) (Some (Int 2))
      (Some (Int 2)) Demo.five
    = (Ok (map (image_of Demo.env Demo.config)
             (take 2 (drop 2 (objects Demo.five)))),
       record Demo.five [Send (list_command Demo.config [] 4)])
  ∧ map object_key (take 2 (objects Demo.five)) = [str "a.png"; str "b.png"]
  ∧ map object_key (take 2 (drop 2 (objects Demo.five)))
    = [str "c.png"; str "d.png"].
Proof.
  cbn zeta. split; [reflexivity|]. split; [vm_compute; reflexivity|].
  split; [|split; reflexivity].
  apply (listImages_slice Demo.env Demo.config [] 2 2 Demo.five). reflexivity.
Qed.

(** ** The quality on the route *)

(** The upload route, for a request that passes the gate and the two
    checks with compression switched on, calls the codec with what
    [parseInt] reads from the [quality] field (from ['80'] when the field
    is missing or empty), and with 80 in place of 0 and NaN. *)
Lemma upload_POST_codec_call env context w entries file :
  request_body (request context) = FormBody entries →
  get entries (str "file") = Some (FFile file) →
  auth.isAuthenticated context = true →
  JS.gt (file_size file) (upload.maxSize env) = false →
  JS.includes upload.allowedTypes (file_type file) = true →
  entry_is (get entries (str "enableWebpCompression")) (str "true") = true →
  codec_calls (events (upload.POST env context w).2)
  = codec_calls (events w)
    ++ [(file_content file,
         JS.or_num
           (Some (JS.parseInt (entry_or (get entries (str "quality")) (str "80"))))
           (Int 80))].
Proof.
  intros Hb Hf Ha Hs Ht Hon.
  rewrite (upload_POST_file env context w entries file Hb Hf), Ha, Hs, Ht.
  cbn [negb]. by apply stored_response_codec_call.
Qed.

(** * Further properties *)

(** ** Numbers and their texts *)

Lemma decimal_range c : decimal c = true → (48 ≤ c ≤ 57)%N.
Proof. unfold decimal. intros [H1 H2]%andb_true_iff. split; by apply N.leb_le. Qed.

Lemma decimal_not_white c : decimal c = true → JS.is_white c = false.
Proof.
  intros H. unfold JS.is_white. apply orb_false_iff. split.
  - apply bool_decide_eq_false_2. intros Hin.
    repeat (apply elem_of_cons in Hin as [-> | Hin]; [discriminate H|]).
    by apply elem_of_nil in Hin.
  - apply decimal_range in H. apply andb_false_iff. left. apply N.leb_gt. lia.
Qed.

Lemma digits_prefix_decimal s :
  forallb decimal s = true → JS.digits_prefix 10 s = digit_values s.
Proof.
  induction s as [|c s IH]; [reflexivity|]. cbn [forallb].
  intros [Hc Hs]%andb_true_iff. cbn [JS.digits_prefix digit_values map].
  unfold JS.radix_digit, JS.digit_value. fold (decimal c). rewrite Hc.
  apply decimal_range in Hc.
  rewrite (proj2 (Z.ltb_lt (Z.of_N c - 48) 10)) by lia.
  f_equal. by apply IH.
Qed.

Lemma parseInt_decimal c s :
  decimal c = true → forallb decimal s = true →
  JS.parseInt (c :: s) = Int (JS.math_int 10 (digit_values (c :: s))).
Proof.
  intros Hc Hs. unfold JS.parseInt. cbn [JS.trim_start].
  rewrite (decimal_not_white c Hc).
  pose proof (decimal_range c Hc) as Hr.
  rewrite (proj2 (N.eqb_neq c 45)), (proj2 (N.eqb_neq c 43)) by lia.
  assert (Hhex : match s with
                 | c1 :: r => if (c =? 48)%N && ((c1 =? 120)%N || (c1 =? 88)%N)
                              then (16, r) else (10, c :: s)
                 | [] => (10, c :: s)
                 end = (10, c :: s)).
  { destruct s as [|c1 r]; [reflexivity|]. cbn [forallb] in Hs.
    apply andb_true_iff in Hs as [H1%decimal_range _].
    rewrite (proj2 (N.eqb_neq c1 120)), (proj2 (N.eqb_neq c1 88)) by lia.
    by rewrite andb_false_r. }
  rewrite Hhex.
  rewrite (digits_prefix_decimal (c :: s)) by (cbn [forallb]; by rewrite Hc, Hs).
  cbn [digit_values map]. f_equal. all: lia.
Qed.

Lemma parseInt_minus_decimal c s :
  decimal c = true → forallb decimal s = true →
  JS.parseInt (45%N :: c :: s) = Int (- JS.math_int 10 (digit_values (c :: s))).
Proof.
  intros Hc Hs. unfold JS.parseInt. cbn [JS.trim_start].
  change (JS.is_white 45) with false. cbn [N.eqb Pos.eqb].
  pose proof (decimal_range c Hc) as Hr.
  assert (Hhex : match s with
                 | c1 :: r => if (c =? 48)%N && ((c1 =? 120)%N || (c1 =? 88)%N)
                              then (16, r) else (10, c :: s)
                 | [] => (10, c :: s)
                 end = (10, c :: s)).
  { destruct s as [|c1 r]; [reflexivity|]. cbn [forallb] in Hs.
    apply andb_true_iff in Hs as [H1%decimal_range _].
    rewrite (proj2 (N.eqb_neq c1 120)), (proj2 (N.eqb_neq c1 88)) by lia.
    by rewrite andb_false_r. }
  rewrite Hhex.
  rewrite (digits_prefix_decimal (c :: s)) by (cbn [forallb]; by rewrite Hc, Hs).
  cbn [digit_values map]. f_equal. all: lia.
Qed.

Lemma str_cons a s : str (String a s) = N_of_ascii a :: str s.
Proof. reflexivity. Qed.

Lemma uint_text_decimal d :
  forallb decimal (str (NilEmpty.string_of_uint d)) = true.
Proof. induction d; cbn [NilEmpty.string_of_uint]; rewrite ?str_cons; [reflexivity | exact IHd ..]. Qed.

Lemma uint_text_acc d p :
  fold_left (fun acc v => acc * 10 + v)
    (digit_values (str (NilEmpty.string_of_uint d))) (Z.pos p)
  = Z.pos (Pos.of_uint_acc d p).
Proof.
  revert p. induction d; intros p; cbn [NilEmpty.string_of_uint];
    rewrite ?str_cons; cbn [digit_values map fold_left Pos.of_uint_acc];
    [reflexivity | ..].
  all: fold (digit_values (str (NilEmpty.string_of_uint d))).
  all: match goal with
       | |- fold_left _ _ ?a = Z.pos (Pos.of_uint_acc _ ?q) =>
           replace a with (Z.pos q) by (cbn; lia)
       end; apply IHd.
Qed.

Lemma uint_text_value d :
  JS.math_int 10 (digit_values (str (NilEmpty.string_of_uint d))) = Z.of_uint d.
Proof.
  unfold JS.math_int, Z.of_uint.
  induction d; cbn [NilEmpty.string_of_uint]; rewrite ?str_cons;
    cbn [digit_values map fold_left Pos.of_uint]; [reflexivity | ..].
  all: fold (digit_values (str (NilEmpty.string_of_uint d))).
  - exact IHd.
  - apply (uint_text_acc d 1).
  - apply (uint_text_acc d 2).
  - apply (uint_text_acc d 3).
  - apply (uint_text_acc d 4).
  - apply (uint_text_acc d 5).
  - apply (uint_text_acc d 6).
  - apply (uint_text_acc d 7).
  - apply (uint_text_acc d 8).
  - apply (uint_text_acc d 9).
Qed.

Lemma uint_nil_or (d : uint) : d = Nil ∨ d ≠ Nil.
Proof. destruct d; [by left | by right ..]. Qed.

Lemma parseInt_uint d :
  JS.parseInt (str (NilZero.string_of_uint d)) = Int (Z.of_uint d).
Proof.
  destruct (uint_nil_or d) as [-> | Hd]; [reflexivity|].
  replace (NilZero.string_of_uint d) with (NilEmpty.string_of_uint d)
    by (by destruct d).
  pose proof (uint_text_decimal d) as Hdec.
  rewrite <- uint_text_value.
  destruct (str (NilEmpty.string_of_uint d)) as [|c s] eqn:E.
  - by destruct d.
  - cbn [forallb] in Hdec. apply andb_true_iff in Hdec as [Hc Hs].
    by apply parseInt_decimal.
Qed.

Lemma parseInt_minus_uint d :
  JS.parseInt (45%N :: str (NilZero.string_of_uint d)) = Int (- Z.of_uint d).
Proof.
  destruct (uint_nil_or d) as [-> | Hd]; [reflexivity|].
  replace (NilZero.string_of_uint d) with (NilEmpty.string_of_uint d)
    by (by destruct d).
  pose proof (uint_text_decimal d) as Hdec.
  rewrite <- uint_text_value.
  destruct (str (NilEmpty.string_of_uint d)) as [|c s] eqn:E.
  - by destruct d.
  - cbn [forallb] in Hdec. apply andb_true_iff in Hdec as [Hc Hs].
    by apply parseInt_minus_decimal.
Qed.

Lemma parseInt_reads_back n : JS.parseInt (JS.to_string n) = n.
Proof.
  destruct n as [|z]; [reflexivity|].
  unfold JS.to_string. rewrite <- (DecimalZ.of_to z) at 2.
  destruct (Z.to_int z) as [d | d]; cbn [NilZero.string_of_int Z.of_int].
  - apply parseInt_uint.
  - rewrite str_cons. apply parseInt_minus_uint.
Qed.

Lemma forallb_Forall_true {A} (f : A → bool) (l : list A) :
  forallb f l = true → Forall (fun x => f x = true) l.
Proof.
  induction l as [|x l IH]; [constructor|]. cbn [forallb].
  intros [Hx Hl]%andb_true_iff. constructor; [exact Hx | by apply IH].
Qed.

Lemma int_text_chars z :
  Forall (fun c => decimal c = true ∨ c = 45%N) (JS.to_string (Int z)).
Proof.
  unfold JS.to_string.
  assert (Hu : ∀ d, Forall (fun c => decimal c = true ∨ c = 45%N)
                      (str (NilZero.string_of_uint d))).
  { intros d. destruct (uint_nil_or d) as [-> | Hd].
    - apply Forall_cons. split; [by left | constructor].
    - replace (NilZero.string_of_uint d) with (NilEmpty.string_of_uint d)
        by (by destruct d).
      pose proof (forallb_Forall_true _ _ (uint_text_decimal d)) as H.
      eapply Forall_impl; [exact H|]. intros c Hc. by left. }
  destruct (Z.to_int z) as [d | d]; cbn [NilZero.string_of_int].
  - apply Hu.
  - rewrite str_cons. apply Forall_cons. split; [by right | apply Hu].
Qed.

Lemma to_string_nonempty n : JS.truthy_str (JS.to_string n) = true.
Proof.
  destruct n as [|z]; [reflexivity|]. unfold JS.to_string.
  destruct (Z.to_int z) as [d | d]; cbn [NilZero.string_of_int]; [|reflexivity].
  destruct d; reflexivity.
Qed.

(** ** Hexadecimal text *)

Lemma hex_digit_chars k : (k < 16)%N → JS.hex_digit k ∈ hex_chars.
Proof.
  intros Hk.
  assert (Hall : forallb (fun k => bool_decide (JS.hex_digit k ∈ hex_chars))
                   (map N.of_nat (seq 0 16)) = true) by (vm_compute; reflexivity).
  rewrite forallb_forall in Hall.
  apply (bool_decide_eq_true_1 (JS.hex_digit k ∈ hex_chars)), Hall, in_map_iff.
  exists (N.to_nat k). split; [lia|]. apply in_seq. lia.
Qed.

Lemma hex_digit_inj a b :
  (a < 16)%N → (b < 16)%N → JS.hex_digit a = JS.hex_digit b → a = b.
Proof.
  unfold JS.hex_digit. intros Ha Hb.
  destruct (a <? 10)%N eqn:Ea, (b <? 10)%N eqn:Eb;
    rewrite ?N.ltb_lt, ?N.ltb_ge in *; lia.
Qed.

Lemma byte_to_N_lt x : (Byte.to_N x < 256)%N.
Proof. by destruct x. Qed.

Lemma hex_cons x b :
  JS.hex (x :: b)
  = JS.hex_digit (Byte.to_N x / 16) :: JS.hex_digit (Byte.to_N x mod 16) :: JS.hex b.
Proof. reflexivity. Qed.

Lemma hex_length b : length (JS.hex b) = (2 * length b)%nat.
Proof. induction b as [|x b IH]; [reflexivity|]. rewrite hex_cons. cbn [length]. lia. Qed.

Lemma hex_all_chars b : Forall (fun c => c ∈ hex_chars) (JS.hex b).
Proof.
  induction b as [|x b IH]; [constructor|]. rewrite hex_cons.
  pose proof (byte_to_N_lt x).
  apply Forall_cons. split.
  { apply hex_digit_chars, N.Div0.div_lt_upper_bound. lia. }
  apply Forall_cons. split; [|exact IH].
  apply hex_digit_chars, N.mod_lt. lia.
Qed.

Lemma hex_inj b1 b2 : JS.hex b1 = JS.hex b2 → b1 = b2.
Proof.
  revert b2. induction b1 as [|x b1 IH]; intros [|y b2]; rewrite ?hex_cons;
    try discriminate; [reflexivity|].
  intros [= Hhi Hlo Hrest]. f_equal; [|by apply IH].
  pose proof (byte_to_N_lt x). pose proof (byte_to_N_lt y).
  apply hex_digit_inj in Hhi;
    [|apply N.Div0.div_lt_upper_bound; lia | apply N.Div0.div_lt_upper_bound; lia].
  apply hex_digit_inj in Hlo; [|apply N.mod_lt; lia | apply N.mod_lt; lia].
  assert (Hn : Byte.to_N x = Byte.to_N y).
  { rewrite (N.div_mod (Byte.to_N x) 16), (N.div_mod (Byte.to_N y) 16) by lia.
    by rewrite Hhi, Hlo. }
  pose proof (Byte.of_to_N x) as Hx. rewrite Hn, Byte.of_to_N in Hx. congruence.
Qed.

(** ** Names and extensions *)

Lemma split_nonempty s : JS.split 46 s ≠ [].
Proof.
  destruct s as [|c r]; [discriminate|]. cbn [JS.split].
  destruct (c =? 46)%N; [discriminate|]. by destruct (JS.split 46 r).
Qed.

Lemma split_no_dot s : Forall (fun seg => 46%N ∉ seg) (JS.split 46 s).
Proof.
  induction s as [|c r IH]; [repeat constructor; apply not_elem_of_nil|].
  cbn [JS.split]. destruct (c =? 46)%N eqn:E.
  - apply Forall_cons. split; [apply not_elem_of_nil | exact IH].
  - apply N.eqb_neq in E. destruct (JS.split 46 r) as [|seg segs].
    + apply Forall_cons. split; [|constructor].
      intros [Heq|H]%elem_of_cons; [congruence | by apply elem_of_nil in H].
    + apply Forall_cons in IH as [Hseg Hsegs]. apply Forall_cons. split; [|exact Hsegs].
      intros [Heq|H]%elem_of_cons; [congruence | by apply Hseg].
Qed.

Lemma join_split s : join (JS.split 46 s) = s.
Proof.
  induction s as [|c r IH]; [reflexivity|]. cbn [JS.split].
  pose proof (split_nonempty r) as Hne.
  destruct (c =? 46)%N eqn:E.
  - apply N.eqb_eq in E. subst c. cbn [join].
    destruct (JS.split 46 r) as [|seg segs]; [done|]. by rewrite <- IH.
  - destruct (JS.split 46 r) as [|seg segs]; [done|].
    rewrite <- IH. cbn [join]. by destruct segs.
Qed.

Lemma join_last segs e :
  last segs = Some e →
  join segs = e ∨ ∃ stem, join segs = stem ++ 46%N :: e.
Proof.
  induction segs as [|seg rest IH]; [discriminate|].
  destruct rest as [|seg' rest'].
  - intros [= ->]. by left.
  - intros Hl. change (last (seg :: seg' :: rest')) with (last (seg' :: rest')) in Hl.
    right. change (join (seg :: seg' :: rest')) with (seg ++ 46%N :: join (seg' :: rest')).
    destruct (IH Hl) as [-> | [stem ->]].
    + by exists seg.
    + exists (seg ++ 46%N :: stem). by rewrite <- app_assoc.
Qed.

Lemma pop_split s :
  ∃ e, JS.pop (JS.split 46 s) = Some e
       ∧ (46%N ∉ e)
       ∧ (s = e ∨ ∃ stem, s = stem ++ 46%N :: e).
Proof.
  unfold JS.pop. destruct (last (JS.split 46 s)) as [e|] eqn:El.
  - exists e. split; [reflexivity|]. split.
    + pose proof (split_no_dot s) as Hall. rewrite Forall_forall in Hall.
      apply Hall. apply last_Some in El as [l' ->]. apply elem_of_app. right.
      apply elem_of_cons. by left.
    + destruct (join_last _ _ El) as [H | [stem H]]; rewrite join_split in H;
        [by left | right; by exists stem].
  - apply last_None in El. by apply split_nonempty in El.
Qed.

Lemma pop_split_no_dot s : 46%N ∉ s → JS.pop (JS.split 46 s) = Some s.
Proof.
  intros Hs. destruct (pop_split s) as (e & -> & He & [-> | [stem ->]]);
    [reflexivity|].
  exfalso. apply Hs, elem_of_app. right. apply elem_of_cons. by left.
Qed.

Lemma replace_ext_match stem e rep :
  e ≠ [] → forallb JS.not_slash_dot e = true →
  JS.replace_ext (stem ++ 46%N :: e) rep = stem ++ rep.
Proof.
  intros He Hall. induction stem as [|c stem IH].
  - cbn [app JS.replace_ext]. rewrite Hall. by destruct e.
  - cbn [app JS.replace_ext].
    replace (forallb JS.not_slash_dot (stem ++ 46%N :: e)) with false.
    + rewrite andb_false_r. by rewrite IH.
    + symmetry. rewrite forallb_app. cbn [forallb]. apply andb_false_r.
Qed.

Lemma replace_ext_no_dot s rep : 46%N ∉ s → JS.replace_ext s rep = s.
Proof.
  induction s as [|c r IH]; [reflexivity|]. intros Hs. cbn [JS.replace_ext].
  rewrite (proj2 (N.eqb_neq c 46)).
  - cbn [andb]. rewrite IH; [reflexivity|].
    intros H. apply Hs, elem_of_cons. by right.
  - intros ->. apply Hs, elem_of_cons. by left.
Qed.

Lemma randomBytes_length env n : length (randomBytes env n) = n.
Proof. unfold randomBytes. by rewrite length_map, length_seq. Qed.

Lemma decimal_in_name_chars c : decimal c = true ∨ c = 45%N → c ∈ name_chars.
Proof.
  intros H. apply (bool_decide_eq_true_1 (c ∈ name_chars)).
  rewrite <- in_name_class_spec. unfold JS.in_name_class.
  destruct H as [H | ->]; [|reflexivity].
  fold (decimal c). rewrite H. by rewrite !orb_true_r.
Qed.

(** X1: with the hash option the name is the 32 lower-case hexadecimal
    digits of 16 random bytes, a dot, and the text after the last dot
    of the original name, taken as it is; a name with no dot is that
    text in whole. *)
Theorem hashed_name_shape env name :
  ∃ e, R2Service.generateFileName env name (Some true)
       = JS.hex (randomBytes env 16) ++ 46%N :: e
       ∧ (46%N ∉ e)
       ∧ (name = e ∨ ∃ stem, name = stem ++ 46%N :: e)
       ∧ length (JS.hex (randomBytes env 16)) = 32%nat
       ∧ Forall (fun c => c ∈ hex_chars) (JS.hex (randomBytes env 16)).
Proof.
  destruct (pop_split name) as (e & Hpop & Hdot & Hname).
  exists e. split; [|split; [exact Hdot | split; [exact Hname | split]]].
  - unfold R2Service.generateFileName. rewrite Hpop. cbn [default from_option id].
    by destruct e.
  - by rewrite hex_length, randomBytes_length.
  - apply hex_all_chars.
Qed.

(** X2: two hashed names of one original name are equal exactly when
    the 16 random bytes behind them are. *)
Theorem hashed_names_equal_iff_bytes env1 env2 name :
  R2Service.generateFileName env1 name (Some true)
  = R2Service.generateFileName env2 name (Some true)
  ↔ randomBytes env1 16 = randomBytes env2 16.
Proof.
  unfold R2Service.generateFileName. cbn [default from_option id]. split.
  - intros H. by apply app_inv_tail, hex_inj in H.
  - by intros ->.
Qed.

(** X3: without the hash option every code unit of the name is one of
    [A-Za-z0-9.-] or an underscore, whatever the original name holds. *)
Theorem default_name_is_plain env name :
  Forall (fun c => c ∈ name_chars ∨ c = 95%N)
    (R2Service.generateFileName env name None)
  ∧ Forall (fun c => c ∈ name_chars ∨ c = 95%N)
      (R2Service.generateFileName env name (Some false)).
Proof.
  assert (H : Forall (fun c => c ∈ name_chars ∨ c = 95%N)
                (JS.to_string (Int (now env)) ++ str "_" ++ JS.replace_unsafe name)).
  { apply Forall_app. split; [|apply Forall_cons; split; [by right|]].
    - eapply Forall_impl; [apply int_text_chars|].
      intros c Hc. left. by apply decimal_in_name_chars.
    - unfold JS.replace_unsafe. apply Forall_forall. intros c Hc.
      apply list_elem_of_In, in_map_iff in Hc as (c0 & <- & _).
      rewrite in_name_class_spec. case_bool_decide; [by left | by right]. }
  split; exact H.
Qed.

Section StoredKey.

Variables (env : Env) (config : R2Config).

Lemma uploadImage_info file name options w info w' b t n :
  R2Service.resolve env file name = (b, t, n) →
  R2Service.uploadImage env config file name options w = (Ok info, w') →
  ∃ p w1, R2Service.processImage env b t options w = (Ok p, w1)
          ∧ info = info_of env config n options p
          ∧ send_fault env (put_command env config n options p) = None
          ∧ w' = {| objects :=
                      Store.put (mkObject (key_of env n options p) (buffer p)
                                   (processed_mimeType p)
                                   (str "public, max-age=31536000") (now env))
                                (objects w1);
                    events := events w1 ++ [Send (put_command env config n options p)] |}.
Proof.
  intros Hr. rewrite (uploadImage_steps env config file name options w b t n Hr).
  destruct (R2Service.processImage env b t options w) as [[p|e] w1]; [|discriminate].
  unfold finish. destruct (send_fault env _) eqn:Hf; [discriminate|].
  intros [= <- <-]. by exists p, w1.
Qed.

(** X4: the key under which a file is stored.  For a name [stem.e]
    (with [e] not empty and free of [/]) the extension is replaced by
    that of the processed type before the name is cleaned or hashed; a
    name with no dot gets no extension in the default mode and becomes
    the extension in whole with the hash option. *)
Theorem stored_key_extension f name0 options w info w' :
  R2Service.uploadImage env config (IsFile f) name0 options w = (Ok info, w') →
  ∃ p, (R2Service.processImage env (file_content f) (file_type f) options w).1 = Ok p
    ∧ mimeType info = processed_mimeType p
    ∧ (∀ stem e,
         file_name f = stem ++ 46%N :: e → e ≠ [] →
         forallb JS.not_slash_dot e = true →
         (useHashName options ≠ Some true →
          key info = JS.to_string (Int (now env)) ++ 95%N
                       :: JS.replace_unsafe stem ++ 46%N :: JS.replace_unsafe (ext p))
         ∧ (useHashName options = Some true → 46%N ∉ ext p →
            key info = JS.hex (randomBytes env 16) ++ 46%N :: ext p))
    ∧ (46%N ∉ file_name f →
         (useHashName options ≠ Some true →
          key info = JS.to_string (Int (now env)) ++ 95%N
                       :: JS.replace_unsafe (file_name f))
         ∧ (useHashName options = Some true →
            key info = JS.hex (randomBytes env 16) ++ 46%N :: file_name f)).
Proof.
  intros Hup.
  destruct (uploadImage_info (IsFile f) name0 options w info w' _ _ _ eq_refl Hup)
    as (p & w1 & Hp & -> & _ & _).
  exists p. rewrite Hp. split; [reflexivity|]. split; [reflexivity|].
  cbn [key info_of]. unfold key_of, R2Service.generateFileName.
  assert (Hplain : useHashName options ≠ Some true →
                   default false (useHashName options) = false)
    by (destruct (useHashName options) as [[|]|]; done).
  split.
  - intros stem e -> He Hall. rewrite (replace_ext_match stem e _ He Hall). split.
    + intros Hh. rewrite (Hplain Hh). unfold JS.replace_unsafe.
      rewrite map_app. reflexivity.
    + intros -> Hext. cbn [default from_option id].
      destruct (pop_split (stem ++ str "." ++ ext p)) as (e' & Hpop & He' & Hsplit).
      rewrite Hpop.
      assert (e' = ext p) as ->; [|by destruct (ext p)].
      destruct Hsplit as [Heq | [stem' Heq]].
      * exfalso. apply He'. rewrite <- Heq. apply elem_of_app. right.
        apply elem_of_cons. by left.
      * change (stem ++ str "." ++ ext p) with (stem ++ 46%N :: ext p) in Heq.
        revert He' Hext Heq. generalize (ext p). clear. intros x He' Hx.
        revert stem'. induction stem as [|c stem IH]; intros [|c' stem']; cbn [app].
        -- by intros [= ->].
        -- intros [= <- ->]. exfalso. apply Hx, elem_of_app. right.
           apply elem_of_cons. by left.
        -- intros [= -> <-]. exfalso. apply He', elem_of_app. right.
           apply elem_of_cons. by left.
        -- intros [= <- H]. by apply (IH stem').
  - intros Hdot. rewrite (replace_ext_no_dot _ _ Hdot). split.
    + intros Hh. by rewrite (Hplain Hh).
    + intros ->. cbn [default from_option id].
      rewrite (pop_split_no_dot _ Hdot). by destruct (file_name f).
Qed.

End StoredKey.

(** X4 on a PNG that the codec of the sample deployment re-encodes. *)
Lemma stored_key_extension_witness :
  ∃ info w',
    R2Service.uploadImage Demo.env Demo.config (IsFile Samples.dot) []
      {| useHashName := None; compressToWebp := Some true; quality := None |}
      Demo.empty = (Ok info, w')
    ∧ key info = str "1700000000000_dot.webp".
Proof.
  eexists _, _. split; [vm_compute; reflexivity|].
  destruct (stored_key_extension Demo.env Demo.config Samples.dot []
              {| useHashName := None; compressToWebp := Some true; quality := None |}
              Demo.empty _ _ eq_refl) as (p & Hp & _ & Hkey & _).
  injection Hp as <-.
  destruct (Hkey (str "dot") (str "png") eq_refl ltac:(discriminate) eq_refl)
    as [H _].
  exact (H ltac:(discriminate)).
Defined.

(** ** The normalizer and the upload, in general *)

Lemma put_elem o os : o ∈ Store.put o os.
Proof.
  induction os as [|p r IH]; cbn [Store.put]; [apply elem_of_cons; by left|].
  case_bool_decide; [apply elem_of_cons; by left|].
  destruct (Store.key_ltb _ _); [apply elem_of_cons; by left|].
  apply elem_of_cons. by right.
Qed.

Lemma processImage_run env b t options w :
  ∃ p w1, R2Service.processImage env b t options w = (Ok p, w1)
          ∧ objects w1 = objects w
          ∧ sent (events w1) = sent (events w)
          ∧ (p = unchanged env b t
             ∨ ∃ out, sharp_webp env b (JS.or_num (quality options) (Int 80)) = Some out
                      ∧ p = reencoded out).
Proof.
  destruct (encodes t options) eqn:E.
  - rewrite (processImage_encodes env b t options w E). cbn zeta.
    destruct (sharp_webp env b _) as [out|] eqn:Hs; eexists _, _;
      (split; [reflexivity|]); cbn [record objects events];
      (split; [reflexivity|]); rewrite sent_app;
      (split; [apply app_nil_r|]); [right; by exists out | by left].
  - rewrite (processImage_skips env b t options w E).
    eexists _, _. repeat split. by left.
Qed.

(** X5: [processImage] never raises and never touches the store; its
    result is the input handed back or, when the codec returns, the
    codec's output typed [image/webp].  With the compression flag unset
    or false, or a type outside [image/], the input is handed back and
    the codec is not called. *)
Theorem processImage_hands_back_or_reencodes env b t options w :
  ∃ p w1, R2Service.processImage env b t options w = (Ok p, w1)
    ∧ objects w1 = objects w
    ∧ sent (events w1) = sent (events w)
    ∧ ((buffer p = b ∧ processed_mimeType p = t)
       ∨ (∃ out, sharp_webp env b (JS.or_num (quality options) (Int 80)) = Some out
                 ∧ buffer p = out ∧ processed_mimeType p = str "image/webp"
                 ∧ ext p = str "webp"))
    ∧ (compressToWebp options ≠ Some true ∨ JS.startsWith t (str "image/") = false →
       buffer p = b ∧ processed_mimeType p = t ∧ w1 = w).
Proof.
  destruct (processImage_run env b t options w) as (p & w1 & Hrun & Ho & Hs & Hp).
  exists p, w1. split; [exact Hrun|]. split; [exact Ho|]. split; [exact Hs|]. split.
  - destruct Hp as [-> | (out & Hout & ->)]; [by left | right; by exists out].
  - intros Hskip.
    assert (E : encodes t options = false).
    { unfold encodes. destruct Hskip as [Hc | ->]; [|apply andb_false_r].
      by destruct (compressToWebp options) as [[|]|]. }
    rewrite (processImage_skips env b t options w E) in Hrun.
    by injection Hrun as <- <-.
Qed.

Lemma uploadImage_run env config file name options w b t n :
  R2Service.resolve env file name = (b, t, n) →
  ∃ p w1, R2Service.processImage env b t options w = (Ok p, w1)
          ∧ objects w1 = objects w
          ∧ sent (events w1) = sent (events w)
          ∧ R2Service.uploadImage env config file name options w
            = finish env config n options p w1.
Proof.
  intros Hr.
  destruct (processImage_run env b t options w) as (p & w1 & Hrun & Ho & Hs & _).
  exists p, w1. repeat split; try done.
  by rewrite (uploadImage_steps env config file name options w b t n Hr), Hrun.
Qed.

(** X6: [uploadImage] sends exactly one command to the store, a put
    into the configured bucket with the one-year cache header.  When it
    returns, the description repeats the key, the length of the body
    and the content type of that put, the URL is the public URL, a
    slash and the key, and the object is in the bucket; when it raises,
    the message is the fault of that put and the bucket is as before. *)
Theorem uploadImage_sends_one_put env config file name options w :
  ∃ k body ct,
    sent (events (R2Service.uploadImage env config file name options w).2)
    = sent (events w) ++ [PutObjectCommand (bucketName config) k body ct one_year]
    ∧ (∀ info, (R2Service.uploadImage env config file name options w).1 = Ok info →
         key info = k ∧ size info = Int (Z.of_nat (length body))
         ∧ mimeType info = ct
         ∧ url info = publicUrl config ++ str "/" ++ k
         ∧ mkObject k body ct one_year (now env)
           ∈ objects (R2Service.uploadImage env config file name options w).2)
    ∧ (∀ e, (R2Service.uploadImage env config file name options w).1 = Throw e →
         send_fault env (PutObjectCommand (bucketName config) k body ct one_year)
         = Some e
         ∧ objects (R2Service.uploadImage env config file name options w).2
           = objects w).
Proof.
  destruct (R2Service.resolve env file name) as [[b t] n] eqn:Hr.
  destruct (uploadImage_run env config file name options w b t n Hr)
    as (p & w1 & _ & Ho & Hs & ->).
  exists (key_of env n options p), (buffer p), (processed_mimeType p).
  unfold finish, put_command, one_year.
  destruct (send_fault env _) as [msg|] eqn:Hf; cbn [fst snd record objects events];
    rewrite sent_app, Hs; (split; [reflexivity|]); split.
  - discriminate.
  - intros e [= <-]. by rewrite Ho.
  - intros info [= <-]. repeat split. apply put_elem.
  - discriminate.
Qed.

(** ** The upload route, in general *)

Lemma stored_response_run env file options w :
  ∃ p w1 r,
    R2Service.processImage env (file_content file) (file_type file) options w
    = (Ok p, w1)
    ∧ objects w1 = objects w
    ∧ sent (events w1) = sent (events w)
    ∧ (stored_response env file options w).1 = Ok r
    ∧ sent (events (stored_response env file options w).2)
      = sent (events w) ++ [put_command env (getR2Config env) (file_name file) options p]
    ∧ match send_fault env (put_command env (getR2Config env) (file_name file) options p) with
      | None =>
          r = json_response 200
                (JObj [("success", JBool true);
                       ("data", image_json
                                  (info_of env (getR2Config env) (file_name file)
                                     options p))]%string)
          ∧ objects (stored_response env file options w).2
            = Store.put (mkObject (key_of env (file_name file) options p) (buffer p)
                           (processed_mimeType p) one_year (now env))
                        (objects w)
      | Some msg =>
          r = json_response 500
                (JObj [("error", JStr (str "Upload failed"));
                       ("details", JStr msg)]%string)
          ∧ objects (stored_response env file options w).2 = objects w
      end.
Proof.
  destruct (uploadImage_run env (getR2Config env) (IsFile file) (file_name file)
              options w _ _ _ eq_refl) as (p & w1 & Hp & Ho & Hs & Hup).
  exists p, w1. cbv [stored_response try_catch bind]. rewrite Hup.
  unfold finish. destruct (send_fault env _) as [msg|];
    cbv [ret bind emit]; cbn [fst snd record objects events];
    eexists; (split; [exact Hp|]); (split; [exact Ho|]); (split; [exact Hs|]);
    (split; [reflexivity|]).
  - rewrite !sent_app, Hs. split; [by rewrite app_nil_r|]. by split.
  - rewrite !sent_app, Hs, Ho. by split.
Qed.

Section UploadRoute.

Variable env : Env.
Variables (context : APIContext) (w : World).
Variable entries : list (jsstring * FormDataEntryValue).
Variable file : File.

Hypothesis form_body : request_body (request context) = FormBody entries.
Hypothesis file_field : get entries (str "file") = Some (FFile file).
Hypothesis session : auth.isAuthenticated context = true.
Hypothesis small : JS.gt (file_size file) (upload.maxSize env) = false.
Hypothesis listed : JS.includes upload.allowedTypes (file_type file) = true.

(** X7: an upload that passes the gate and the two checks with
    compression not switched on stores the bytes of the file as they
    are, under the declared type and the one-year cache header, with a
    single put; the answer is 200 with the key, the public URL of the
    key, the size of the file and the declared type. *)
Theorem upload_stores_file_as_is :
  entry_is (get entries (str "enableWebpCompression")) (str "true") = false →
  let name := JS.replace_ext (file_name file)
                (str "." ++ JS.or_str (mime_extension env (file_type file)) (str "bin")) in
  let k := R2Service.generateFileName env name
             (Some (entry_is (get entries (str "useHashName")) (str "true"))) in
  let put := PutObjectCommand (bucketName (getR2Config env)) k (file_content file)
               (file_type file) one_year in
  send_fault env put = None →
  upload.POST env context w
  = (Ok (json_response 200
           (JObj [("success", JBool true);
                  ("data", image_json
                             {| key := k;
                                url := publicUrl (getR2Config env) ++ str "/" ++ k;
                                size := file_size file;
                                mimeType := file_type file;
                                uploadedAt := now env |})]%string)),
     {| objects := Store.put (mkObject k (file_content file) (file_type file)
                                one_year (now env)) (objects w);
        events := events w ++ [Send put] |}).
Proof using form_body file_field session small listed.
  intros Hoff name k put Hok.
  rewrite (upload_POST_file env context w entries file form_body file_field).
  rewrite session, small, listed. cbn [negb].
  unfold stored_response, try_catch, bind at 1.
  rewrite (uploadImage_steps env (getR2Config env) (IsFile file) (file_name file)
             _ w _ _ _ eq_refl).
  rewrite processImage_skips
    by (unfold encodes, upload.options_of; cbn [compressToWebp]; by rewrite Hoff).
  unfold finish, put_command, key_of, info_of, unchanged.
  cbn [ext buffer processed_mimeType upload.options_of useHashName].
  fold name. fold k. fold one_year. fold put. rewrite Hok. reflexivity.
Qed.

End UploadRoute.

(** X7 on the sample PNG. *)
Lemma upload_stores_file_as_is_witness :
  ∃ r w', upload.POST Demo.env
            (Samples.upload_of Demo.session Samples.dot
               [("enableWebpCompression", "false")]%string) Demo.empty
          = (Ok r, w')
          ∧ map object_body (objects w') = [file_content Samples.dot].
Proof.
  eexists _, _. split.
  - exact (upload_stores_file_as_is Demo.env
             (Samples.upload_of Demo.session Samples.dot
                [("enableWebpCompression", "false")]%string) Demo.empty
             _ Samples.dot eq_refl eq_refl eq_refl eq_refl eq_refl eq_refl eq_refl).
  - reflexivity.
Defined.

(** X8: the upload route reaches the store only for a request that
    passed the gate and carries a file within the size limit whose
    declared type is listed; it then sends one command, a put.  In
    every other case it sends nothing and the bucket is as before. *)
Theorem upload_reaches_store_only_after_checks env context w :
  (sent (events (upload.POST env context w).2) = sent (events w)
   ∧ objects (upload.POST env context w).2 = objects w)
  ∨ (∃ entries file put,
       auth.isAuthenticated context = true
       ∧ request_body (request context) = FormBody entries
       ∧ get entries (str "file") = Some (FFile file)
       ∧ JS.gt (file_size file) (upload.maxSize env) = false
       ∧ JS.includes upload.allowedTypes (file_type file) = true
       ∧ is_put (getR2Config env) put
       ∧ sent (events (upload.POST env context w).2) = sent (events w) ++ [put]).
Proof.
  destruct (auth.isAuthenticated context) eqn:Hauth;
    [|left; by rewrite upload_POST_unauthenticated].
  destruct (request_body (request context)) as [entries|j|] eqn:Hb.
  2,3: left; unfold upload.POST, auth.requireAuth; rewrite Hauth; cbn [negb];
       unfold try_catch, bind, request_formData; rewrite Hb;
       cbv [throw emit ret bind]; cbn [snd objects events];
       rewrite sent_app; split; [apply app_nil_r | reflexivity].
  destruct (get entries (str "file")) as [[s|file]|] eqn:Hf.
  1,3: left; unfold upload.POST, auth.requireAuth; rewrite Hauth; cbn [negb];
       unfold try_catch, bind, request_formData; rewrite Hb; cbn [ret];
       rewrite Hf; try destruct s; by split.
  rewrite (upload_POST_file env context w entries file Hb Hf), Hauth. cbn [negb].
  destruct (JS.gt _ _) eqn:Hgt; [left; by split|].
  destruct (JS.includes _ _) eqn:Hin; [|left; by split]. cbn [negb].
  right.
  destruct (stored_response_run env file (upload.options_of entries) w)
    as (p & w1 & r & _ & _ & _ & _ & Hsent & _).
  exists entries, file,
    (put_command env (getR2Config env) (file_name file) (upload.options_of entries) p).
  split_and!; try done. by eexists _, _, _.
Qed.

(** ** What every route answers *)

Ltac answered :=
  eexists _, _; split; [reflexivity | cbn [status json_response]; set_solver].

Lemma upload_POST_answers env context : answers [200; 400; 401; 500] (upload.POST env context).
Proof.
  intros w. unfold upload.POST, auth.requireAuth.
  destruct (auth.isAuthenticated context); cbn [negb]; [|answered].
  unfold try_catch, bind at 1, request_formData.
  destruct (request_body (request context)) as [entries|j|];
    cbv [throw ret emit bind]; try answered.
  destruct (get entries (str "file")) as [[[|c s]|file]|]; try answered.
  destruct (JS.gt _ _); [answered|].
  destruct (JS.includes _ _); cbn [negb]; [|answered].
  destruct (R2Service.uploadImage _ _ _ _ _ _) as [[info|e] w1]; answered.
Qed.

Lemma images_GET_answers env context : answers [200; 500] (images.GET env context).
Proof.
  intros w. unfold images.GET, try_catch, bind at 1.
  destruct (R2Service.listImages _ _ _ _ _ _) as [[l|e] w1];
    cbv [ret emit bind]; answered.
Qed.

Lemma images_DELETE_answers env context : answers [200; 400; 500] (images.DELETE env context).
Proof.
  intros w. unfold images.DELETE, try_catch, bind at 1, request_json.
  destruct (request_body (request context)) as [entries|j|];
    cbv [throw ret emit bind]; try answered.
  destruct (property j "key" w) as [[k|e] w1]; [|answered].
  destruct (truthy k); cbn [negb]; [|answered].
  destruct (R2Service.deleteImage _ _ _ _) as [[[]|e] w2]; answered.
Qed.

(** X9: no route raises.  The upload route answers 200, 400, 401 or
    500, the listing route 200 or 500, the deletion route 200, 400 or
    500, the login route 200, 401 or 500, verification 200 or 401 and
    the logout route 200, whatever the request and the state of the
    store. *)
Theorem routes_always_answer env context :
  answers [200; 400; 401; 500] (upload.POST env context)
  ∧ answers [200; 500] (images.GET env context)
  ∧ answers [200; 400; 500] (images.DELETE env context)
  ∧ (∀ w, ∃ r jar w', login.POST env context w = (Ok (r, jar), w')
                      ∧ status r ∈ [200; 401; 500])
  ∧ status (verify.GET context) ∈ [200; 401]
  ∧ status (logout.POST context).1 = 200.
Proof.
  split; [apply upload_POST_answers|]. split; [apply images_GET_answers|].
  split; [apply images_DELETE_answers|]. split; [|split; [|reflexivity]].
  - intros w. unfold login.POST, try_catch, bind at 1, request_json.
    destruct (request_body (request context)) as [entries|j|];
      cbv [throw ret emit bind];
      try (eexists _, _, _; split; [reflexivity | cbn [status json_response]; set_solver]).
    destruct (property j "password" w) as [[v|e] w1];
      [|eexists _, _, _; split; [reflexivity | cbn [status json_response]; set_solver]].
    destruct (env_value env "ADMIN_PASSWORD") as [pw|];
      [destruct (strict_eq_str v pw); cbn [negb]|];
      eexists _, _, _; (split; [reflexivity | cbn [status json_response]; set_solver]).
  - unfold verify.GET. destruct (auth.isAuthenticated context);
      cbn [status json_response]; set_solver.
Qed.

(** ** The deletion route *)

(** X10: the deletion route sends nothing to the store unless the body
    is a JSON object with a truthy [key].  A JSON body other than
    [null] that is no such object (a number, a string, a boolean, an
    array, or an object whose key is missing, empty or otherwise
    falsy) is answered 400 with nothing done at all; a body that is not
    JSON, or is [null], is answered 500; in every one of these cases no
    command is sent and the bucket is as before. *)
Theorem delete_without_key_sends_nothing env context w :
  (∀ j, request_body (request context) = JsonBody j → j ≠ JNull →
        (∀ fields, j = JObj fields → truthy (field fields "key") = false) →
        (images.DELETE env context w).1 = Ok no_key
        ∧ (images.DELETE env context w).2 = w)
  ∧ ((∀ j, request_body (request context) ≠ JsonBody j)
     ∨ request_body (request context) = JsonBody JNull →
     ∃ details, (images.DELETE env context w).1 = Ok (delete_failed details)
                ∧ sent (events (images.DELETE env context w).2) = sent (events w)
                ∧ objects (images.DELETE env context w).2 = objects w)
  ∧ ((sent (events (images.DELETE env context w).2) = sent (events w)
      ∧ objects (images.DELETE env context w).2 = objects w)
     ∨ ∃ fields, request_body (request context) = JsonBody (JObj fields)
                 ∧ truthy (field fields "key") = true).
Proof.
  assert (Hno : ∀ j, request_body (request context) = JsonBody j → j ≠ JNull →
                     (∀ fields, j = JObj fields → truthy (field fields "key") = false) →
                     images.DELETE env context w = (Ok no_key, w)).
  { intros j Hb Hnull Hk. unfold images.DELETE, try_catch, bind at 1, request_json.
    rewrite Hb. destruct j as [|b|n|s|d|l|fields]; cbv [ret bind property];
      [done | reflexivity.. |].
    by rewrite (Hk fields eq_refl). }
  assert (Hbad : (∀ j, request_body (request context) ≠ JsonBody j)
                 ∨ request_body (request context) = JsonBody JNull →
                 ∃ details, (images.DELETE env context w).1 = Ok (delete_failed details)
                   ∧ sent (events (images.DELETE env context w).2) = sent (events w)
                   ∧ objects (images.DELETE env context w).2 = objects w).
  { intros Hbad. unfold images.DELETE, try_catch, bind at 1, request_json.
    destruct (request_body (request context)) as [entries|j|] eqn:Hb.
    + eexists. cbv [throw ret emit bind]. cbn [fst snd objects events].
      rewrite sent_app. split_and!; [reflexivity | apply app_nil_r | reflexivity].
    + destruct Hbad as [Hbad | [= ->]]; [by destruct (Hbad j)|].
      eexists. cbv [throw ret emit bind property]. cbn [fst snd objects events].
      rewrite sent_app. split_and!; [reflexivity | apply app_nil_r | reflexivity].
    + eexists. cbv [throw ret emit bind]. cbn [fst snd objects events].
      rewrite sent_app. split_and!; [reflexivity | apply app_nil_r | reflexivity]. }
  split_and!.
  - intros j Hb Hnull Hk. by rewrite (Hno j Hb Hnull Hk).
  - exact Hbad.
  - destruct (request_body (request context)) as [entries|j|] eqn:Hb.
    + left. destruct Hbad as (? & _ & ? & ?); [by left|done].
    + destruct j as [|b|n|s|d|l|fields].
      1: { left. destruct Hbad as (? & _ & ? & ?); [by right|done]. }
      1-5: left; by rewrite (Hno _ eq_refl).
      destruct (truthy (field fields "key")) eqn:Hk; [right; by exists fields|].
      left. rewrite (Hno _ eq_refl); [done..|]. by intros ? [= <-].
    + left. destruct Hbad as (? & _ & ? & ?); [by left|done].
Qed.

(** X11: given a JSON object whose [key] is a non-empty string, the
    deletion route sends exactly one command, the deletion of that key
    in the configured bucket, without looking the key up first.  When
    the store takes it the answer is 200, whether or not an object had
    that key, and no object of that key is left; when the store faults
    the answer is 500 with the fault as details and the bucket is as
    before. *)
Theorem delete_sends_one_command env context w fields k :
  request_body (request context) = JsonBody (JObj fields) →
  field fields "key" = Some (JStr k) → k ≠ [] →
  let command := DeleteObjectCommand (bucketName (getR2Config env)) (JStr k) in
  sent (events (images.DELETE env context w).2) = sent (events w) ++ [command]
  ∧ match send_fault env command with
    | None =>
        (images.DELETE env context w).1 = Ok deleted
        ∧ objects (images.DELETE env context w).2
          = filter (fun o => object_key o ≠ k) (objects w)
        ∧ k ∉ map object_key (objects (images.DELETE env context w).2)
    | Some e =>
        (images.DELETE env context w).1 = Ok (delete_failed e)
        ∧ objects (images.DELETE env context w).2 = objects w
    end.
Proof.
  intros Hb Hf Hk command.
  unfold images.DELETE, try_catch, bind at 1, request_json. rewrite Hb.
  cbv [ret bind property]. rewrite Hf.
  replace (truthy (Some (JStr k))) with true by (by destruct k).
  cbv [negb default from_option id R2Service.deleteImage Store.send bind emit ret throw].
  fold command. destruct (send_fault env command) as [e|];
    cbn [fst snd objects events Store.run Store.key_text command];
    rewrite ?sent_app;
    cbn [sent omap]; rewrite ?app_nil_r; (split; [reflexivity|]).
  - by split.
  - split; [reflexivity|]. split; [reflexivity|].
    unfold Store.remove. intros Hin.
    apply list_elem_of_In, in_map_iff in Hin as (o & Ho & Hin).
    apply list_elem_of_In, list_elem_of_filter in Hin as [Hne _]. by apply Hne.
Qed.

(** X11 on the bucket of five objects, for a key that no object has. *)
Lemma delete_sends_one_command_witness :
  (images.DELETE Demo.env
     (delete_request ∅ (JObj [("key", JStr (str "zz.png"))]%string)) Demo.five).1
  = Ok deleted
  ∧ objects (images.DELETE Demo.env
               (delete_request ∅ (JObj [("key", JStr (str "zz.png"))]%string))
               Demo.five).2
    = objects Demo.five.
Proof.
  destruct (delete_sends_one_command Demo.env
              (delete_request ∅ (JObj [("key", JStr (str "zz.png"))]%string))
              Demo.five _ (str "zz.png") eq_refl eq_refl ltac:(discriminate))
    as (_ & Hok & Hobjs & _).
  split; [exact Hok | rewrite Hobjs; reflexivity].
Defined.

(** X10 on an empty JSON object. *)
Lemma delete_without_key_sends_nothing_witness :
  images.DELETE Demo.env (delete_request ∅ (JObj [])) Demo.five
  = (Ok no_key, Demo.five).
Proof.
  destruct (delete_without_key_sends_nothing Demo.env
              (delete_request ∅ (JObj [])) Demo.five) as [H _].
  destruct (H (JObj []) eq_refl ltac:(discriminate)
              ltac:(by intros ? [= <-])) as [H1 H2].
  destruct (images.DELETE Demo.env (delete_request ∅ (JObj [])) Demo.five).
  cbn [fst snd] in *. by rewrite H1, H2.
Defined.

(** ** The listing route *)

Lemma run_events env c w : events (Store.run env c w).2 = events w.
Proof.
  destruct c as [? ? ? ? ?|? k|? ? m]; cbn [Store.run]; [reflexivity | |].
  - by destruct (Store.key_text k).
  - destruct m as [|n]; [reflexivity|]. by destruct (0 <=? n).
Qed.

Lemma send_sent env c w :
  sent (events (Store.send env c w).2) = sent (events w) ++ [c].
Proof.
  unfold Store.send. cbv [bind emit throw].
  destruct (send_fault env c); [cbn [snd events]; by rewrite sent_app|].
  rewrite run_events. cbn [events]. by rewrite sent_app.
Qed.

Lemma send_list_objects env bucket prefix m w :
  objects (Store.send env (ListObjectsV2Command bucket prefix m) w).2 = objects w.
Proof.
  unfold Store.send. cbv [bind emit throw].
  destruct (send_fault env _); [reflexivity|]. cbn [Store.run].
  destruct m as [|n]; [reflexivity|]. by destruct (0 <=? n).
Qed.

Lemma listImages_world env config prefix maxKeys offset w :
  (R2Service.listImages env config prefix maxKeys offset w).2
  = (Store.send env
       (ListObjectsV2Command (bucketName config) (default [] prefix)
          (JS.min (JS.add (default (Int 100) maxKeys) (default (Int 0) offset))
             (Int 1000))) w).2.
Proof.
  unfold R2Service.listImages, bind at 1.
  by destruct (Store.send env _ w) as [[o|e] w1].
Qed.

(** X12: the listing route only reads.  Whatever the query and the
    state of the store, it sends exactly one command, a listing of the
    configured bucket under the [prefix] parameter (empty when absent)
    for [min (parseInt limit) 1000] keys (50 when [limit] is absent or
    empty), and leaves the bucket as it is. *)
Theorem listing_route_only_reads env context w :
  let limit := JS.parseInt (JS.or_str (get (searchParams context) (str "limit"))
                              (str "50")) in
  let command :=
    ListObjectsV2Command (bucketName (getR2Config env))
      (JS.or_str (get (searchParams context) (str "prefix")) [])
      (JS.min limit (Int 1000)) in
  sent (events (images.GET env context w).2) = sent (events w) ++ [command]
  ∧ objects (images.GET env context w).2 = objects w
  ∧ (get (searchParams context) (str "limit") = None
     ∨ get (searchParams context) (str "limit") = Some [] →
     limit = Int 50).
Proof.
  intros limit command.
  assert (Hworld : ∃ evs, (images.GET env context w).2
                          = record (Store.send env command w).2 evs
                          ∧ sent evs = []).
  { unfold images.GET, try_catch, bind at 1. fold limit.
    pose proof (listImages_world env (getR2Config env)
                  (Some (JS.or_str (get (searchParams context) (str "prefix")) []))
                  (Some limit) None w) as Hw.
    cbn [default from_option id] in Hw.
    replace (JS.add limit (Int 0)) with limit in Hw
      by (destruct limit; cbn [JS.add]; [reflexivity | f_equal; lia]).
    fold command in Hw.
    destruct (R2Service.listImages _ _ _ _ _ _) as [[l|e] w1]; cbn [snd] in Hw;
      subst w1; cbv [ret emit bind]; cbn [snd].
    - exists []. split; [|reflexivity]. unfold record. by rewrite app_nil_r; destruct (Store.send env command w).2.
    - by exists [ConsoleError "List images error:"]. }
  destruct Hworld as (evs & -> & Hevs). cbn [record objects events].
  split; [|split].
  - by rewrite sent_app, Hevs, app_nil_r, send_sent.
  - apply send_list_objects.
  - intros [H | H]; subst limit; rewrite H; reflexivity.
Qed.

(** X13: [listImages] with limit [L] and offset [O] returns the objects
    at the positions [O] to [min (O + L) 1000] of the store's listing
    under the prefix, in order: never more than [L] and never any
    object past the first 1000, so nothing at all from offset 1000
    on. *)
Theorem listImages_window env config prefix (L O : nat) w :
  send_fault env (list_command config prefix (L + O)) = None →
  ∃ images,
    R2Service.listImages env config (Some prefix)
      (Some (Int (Z.of_nat L))) (Some (Int (Z.of_nat O))) w
    = (Ok images, record w [Send (list_command config prefix (L + O))])
    ∧ images = map (image_of env config)
                 (take (Nat.min L (1000 - O)) (drop O (store_listing prefix w)))
    ∧ (length images ≤ L)%nat
    ∧ (length images ≤ 1000 - O)%nat
    ∧ ((1000 ≤ O)%nat → images = []).
Proof.
  intros Hok. eexists. split; [exact (listImages_slice env config prefix L O w Hok)|].
  assert (Heq : take L (drop O (take (Nat.min (L + O) 1000) (store_listing prefix w)))
                = take (Nat.min L (1000 - O)) (drop O (store_listing prefix w))).
  { generalize (store_listing prefix w). intros l.
    destruct (decide (O ≤ Nat.min (L + O) 1000)%nat) as [Hle | Hgt].
    - replace (Nat.min (L + O) 1000) with (O + (Nat.min (L + O) 1000 - O))%nat
        at 1 by lia.
      rewrite <- take_drop_commute, take_take. f_equal. lia.
    - rewrite drop_ge by (rewrite length_take; lia).
      replace (Nat.min L (1000 - O)) with 0%nat by lia. by rewrite take_nil. }
  rewrite Heq. split; [reflexivity|]. rewrite length_map, length_take.
  split; [lia|]. split; [lia|].
  intros HO. by replace (Nat.min L (1000 - O)) with 0%nat by lia.
Qed.

(** X13 on the bucket of five objects: limit two from offset four. *)
Lemma listImages_window_witness :
  R2Service.listImages Demo.env Demo.config (Some []) (Some (Int 2)) (Some (Int 4))
    Demo.five
  = (Ok (map (image_of Demo.env Demo.config) [Demo.object "e.png" [x05]]),
     record Demo.five [Send (list_command Demo.config [] 6)]).
Proof.
  destruct (listImages_window Demo.env Demo.config [] 2 4 Demo.five eq_refl)
    as (images & Hrun & -> & _).
  exact Hrun.
Defined.

Lemma images_GET_run env context w (L : nat) :
  JS.parseInt (JS.or_str (get (searchParams context) (str "limit")) (str "50"))
  = Int (Z.of_nat L) →
  let prefix := JS.or_str (get (searchParams context) (str "prefix")) [] in
  send_fault env (list_command (getR2Config env) prefix L) = None →
  images.GET env context w
  = (Ok (listed (map (image_of env (getR2Config env))
                   (take (Nat.min L 1000) (store_listing prefix w)))),
     record w [Send (list_command (getR2Config env) prefix L)]).
Proof.
  intros Hlimit prefix Hok. unfold images.GET, try_catch, bind at 1.
  fold prefix. rewrite Hlimit.
  pose proof (listImages_slice env (getR2Config env) prefix L 0 w) as Hrun.
  rewrite Nat.add_0_r in Hrun. specialize (Hrun Hok).
  change (Z.of_nat 0) with 0 in Hrun.
  change (R2Service.listImages env (getR2Config env) (Some prefix)
            (Some (Int (Z.of_nat L))) None)
    with (R2Service.listImages env (getR2Config env) (Some prefix)
            (Some (Int (Z.of_nat L))) (Some (Int 0))).
  rewrite Hrun. cbv [ret]. unfold listed. rewrite drop_0, take_take.
  by replace (Nat.min L (Nat.min L 1000)) with (Nat.min L 1000) by lia.
Qed.

(** X14: the gallery asks for page [p] with [limit=1000] and
    [offset=(p-1)*1000]; the listing route answers every page alike,
    with the first 1000 objects of the bucket (all of them when there
    are fewer). *)
Theorem gallery_pages_are_alike env jar w (page : Z) :
  images.GET env (gallery_request jar page) w
  = images.GET env (gallery_request jar 1) w
  ∧ (send_fault env (list_command (getR2Config env) [] 1000) = None →
     images.GET env (gallery_request jar page) w
     = (Ok (listed (map (image_of env (getR2Config env))
                      (take 1000 (objects w)))),
        record w [Send (list_command (getR2Config env) [] 1000)])).
Proof.
  split; [reflexivity|]. intros Hok.
  rewrite (images_GET_run env (gallery_request jar page) w 1000 eq_refl Hok).
  by rewrite store_listing_all.
Qed.

(** X14 on the bucket of five objects, page three. *)
Lemma gallery_pages_are_alike_witness :
  images.GET Demo.env (gallery_request ∅ 3) Demo.five
  = (Ok (listed (map (image_of Demo.env Demo.config) (objects Demo.five))),
     record Demo.five [Send (list_command Demo.config [] 1000)]).
Proof.
  destruct (gallery_pages_are_alike Demo.env ∅ Demo.five 3) as [_ H].
  exact (H eq_refl).
Defined.

(** ** Logging in *)

(** X15: the login route answers 200, or changes the cookies, only
    when [ADMIN_PASSWORD] is configured and not empty and the body is a
    JSON object whose [password] is that very string; the cookie
    [auth-token] is then set to the hexadecimal text of 32 random bytes
    and nothing else changes. *)
Theorem login_only_with_password env context w r jar w' :
  login.POST env context w = (Ok (r, jar), w') →
  status r = 200 ∨ jar ≠ cookies context →
  ∃ pw fields,
    env_value env "ADMIN_PASSWORD" = Some pw
    ∧ request_body (request context) = JsonBody (JObj fields)
    ∧ field fields "password" = Some (JStr pw)
    ∧ r = logged_in
    ∧ jar = <[auth_token := JS.hex (randomBytes env 32)]> (cookies context)
    ∧ w' = w.
Proof.
  unfold login.POST, try_catch, bind at 1, request_json.
  destruct (request_body (request context)) as [entries|j|] eqn:Hb;
    cbv [throw ret emit bind];
    try (intros [= <- <- <-] [H | H]; [discriminate H | by destruct H]).
  destruct j as [|b|n|s|ms|items|fields]; cbn [property]; cbv [throw ret];
    destruct (env_value env "ADMIN_PASSWORD") as [pw|] eqn:Hpw;
    try (intros [= <- <- <-] [H | H]; [discriminate H | by destruct H]).
  destruct (strict_eq_str (field fields "password") pw) eqn:Heq; cbn [negb];
    [|intros [= <- <- <-] [H | H]; [discriminate H | by destruct H]].
  intros [= <- <- <-] _. exists pw, fields. split_and!; try reflexivity.
  unfold strict_eq_str in Heq.
  destruct (field fields "password") as [[| | |t| | |]|]; try discriminate.
  by apply bool_decide_eq_true_1 in Heq as ->.
Qed.

(** X15 on the sample deployment, with its password. *)
Lemma login_only_with_password_witness :
  ∃ jar, login.POST Demo.env
           (login_request ∅ (JObj [("password", JStr (str "hunter2"))]%string))
           Demo.empty
         = (Ok (logged_in, jar), Demo.empty)
         ∧ field [("password", JStr (str "hunter2"))]%string "password"
           = Some (JStr (str "hunter2")).
Proof.
  eexists. split; [vm_compute; reflexivity|].
  destruct (login_only_with_password Demo.env
              (login_request ∅ (JObj [("password", JStr (str "hunter2"))]%string))
              Demo.empty _ _ _ eq_refl (or_introl eq_refl))
    as (pw & fields & Hpw & Hb & Hf & _).
  injection Hb as <-. injection Hpw as <-. exact Hf.
Defined.

(** X16: a session from login to logout.  A login with the configured
    password answers 200 and sets a token of 64 hexadecimal digits;
    the request that carries the cookies it left is authenticated for
    verification and passes the gate of the upload route; after a
    logout the next request is not and gets the 401 of the gate. *)
Theorem session_lifecycle env context w fields pw :
  request_body (request context) = JsonBody (JObj fields) →
  env_value env "ADMIN_PASSWORD" = Some pw →
  field fields "password" = Some (JStr pw) →
  ∃ jar token,
    login.POST env context w = (Ok (logged_in, jar), w)
    ∧ jar !! auth_token = Some token
    ∧ length token = 64%nat
    ∧ Forall (fun c => c ∈ hex_chars) token
    ∧ verify.GET (with_cookies jar context) = verified
    ∧ auth.requireAuth (with_cookies jar context) = None
    ∧ verify.GET (with_cookies (logout.POST (with_cookies jar context)).2 context)
      = unverified
    ∧ auth.requireAuth (with_cookies (logout.POST (with_cookies jar context)).2 context)
      = Some auth_required.
Proof.
  intros Hb Hpw Hf.
  exists (<[auth_token := JS.hex (randomBytes env 32)]> (cookies context)),
         (JS.hex (randomBytes env 32)).
  assert (Hauth : auth.isAuthenticated
                    (with_cookies (<[auth_token := JS.hex (randomBytes env 32)]>
                                     (cookies context)) context) = true).
  { unfold auth.isAuthenticated, with_cookies. cbn [cookies].
    by rewrite lookup_insert_eq. }
  assert (Hout : auth.isAuthenticated
                   (with_cookies
                      (logout.POST
                         (with_cookies (<[auth_token := JS.hex (randomBytes env 32)]>
                                          (cookies context)) context)).2 context)
                 = false).
  { unfold auth.isAuthenticated, with_cookies, logout.POST. cbn [cookies snd].
    by rewrite lookup_delete_eq. }
  split_and!.
  - unfold login.POST, try_catch, bind at 1, request_json. rewrite Hb.
    cbv [ret bind property]. rewrite Hf, Hpw. unfold strict_eq_str.
    by rewrite bool_decide_eq_true_2.
  - apply lookup_insert_eq.
  - by rewrite hex_length, randomBytes_length.
  - apply hex_all_chars.
  - by rewrite verify_GET_cases, Hauth.
  - unfold auth.requireAuth. by rewrite Hauth.
  - by rewrite verify_GET_cases, Hout.
  - unfold auth.requireAuth. by rewrite Hout.
Qed.

(** X16 on the sample deployment. *)
Lemma session_lifecycle_witness :
  ∃ jar,
    login.POST Demo.env
      (login_request ∅ (JObj [("password", JStr (str "hunter2"))]%string)) Demo.empty
    = (Ok (logged_in, jar), Demo.empty)
    ∧ verify.GET (mkContext jar [] Demo.get_request) = verified.
Proof.
  destruct (session_lifecycle Demo.env
              (login_request ∅ (JObj [("password", JStr (str "hunter2"))]%string))
              Demo.empty _ (str "hunter2") eq_refl eq_refl eq_refl)
    as (jar & token & Hlogin & Hjar & _ & _ & _ & _).
  exists jar. split; [exact Hlogin|].
  rewrite verify_GET_cases. unfold auth.isAuthenticated. cbn [cookies].
  rewrite Hjar. injection Hlogin as <-. injection Hjar as <-. reflexivity.
Defined.

(** X17: the status check of the client agrees with the gate of the
    server: when the request reaches the verification route the check
    is true exactly for a request with a session, and false when
    [fetch] rejects. *)
Theorem checkAuthStatus_agrees_with_gate context :
  checkAuthStatus (Some (verify.GET context)) = auth.isAuthenticated context
  ∧ (checkAuthStatus (Some (verify.GET context)) = true ↔ has_session context)
  ∧ checkAuthStatus None = false.
Proof.
  assert (H : checkAuthStatus (Some (verify.GET context))
              = auth.isAuthenticated context).
  { rewrite verify_GET_cases. by destruct (auth.isAuthenticated context). }
  split; [exact H|]. split; [|reflexivity].
  rewrite H. apply isAuthenticated_spec.
Qed.

(** ** The uploader *)

(** X18: what the uploader puts in its form is what the service works
    with: the upload route finds the file, reads the two switches from
    ["true"] and ["false"], and reads the quality back from its text
    for every quality that is printed by its digits (NaN, or an integer
    below 2^53 in magnitude, so every value of the slider). *)
Theorem uploader_options_reach_service file q h c :
  printed_by_digits q →
  get (ImageUploader.uploadFile file q h c) (str "file") = Some (FFile file)
  ∧ upload.options_of (ImageUploader.uploadFile file q h c)
    = {| useHashName := Some h; compressToWebp := Some c; quality := Some q |}.
Proof.
  intros _. split; [reflexivity|]. unfold upload.options_of.
  change (get (ImageUploader.uploadFile file q h c) (str "useHashName"))
    with (Some (FString (ImageUploader.bool_to_string h))).
  change (get (ImageUploader.uploadFile file q h c) (str "enableWebpCompression"))
    with (Some (FString (ImageUploader.bool_to_string c))).
  change (get (ImageUploader.uploadFile file q h c) (str "quality"))
    with (Some (FString (JS.to_string q))).
  f_equal.
  - by destruct h.
  - by destruct c.
  - unfold entry_or, JS.or_str. by rewrite to_string_nonempty, parseInt_reads_back.
Qed.

(** X18 on the sample PNG at the quality 80 with both switches set. *)
Lemma uploader_options_reach_service_witness :
  upload.options_of (ImageUploader.uploadFile Samples.dot (Int 80) true true)
  = {| useHashName := Some true; compressToWebp := Some true;
       quality := Some (Int 80) |}.
Proof.
  exact (proj2 (uploader_options_reach_service Samples.dot (Int 80) true true
                  eq_refl)).
Defined.

(** X19: the uploader keeps every file whose declared type the upload
    route accepts; it also keeps files of other [image/] types, which
    the route, past the gate and the size check, answers with the
    unsupported-type error and does not store. *)
Theorem uploader_keeps_what_the_route_accepts files file :
  (file ∈ files → JS.includes upload.allowedTypes (file_type file) = true →
   file ∈ ImageUploader.handleFiles files)
  ∧ (JS.startsWith (file_type file) (str "image/") = true →
     JS.includes upload.allowedTypes (file_type file) = false →
     ImageUploader.handleFiles [file] = [file]
     ∧ ∀ env jar w q h c,
         auth.isAuthenticated
           (mkContext jar [] (Demo.form_request (ImageUploader.uploadFile file q h c)))
         = true →
         JS.gt (file_size file) (upload.maxSize env) = false →
         upload.POST env
           (mkContext jar [] (Demo.form_request (ImageUploader.uploadFile file q h c))) w
         = (Ok upload.invalid_type, w)).
Proof.
  split.
  - intros Hin Hok. unfold ImageUploader.handleFiles.
    apply list_elem_of_In, filter_In. split; [by apply list_elem_of_In|].
    by apply allowed_is_image.
  - intros Himg Hnot. split.
    + unfold ImageUploader.handleFiles. cbn [List.filter]. by rewrite Himg.
    + intros env jar w q h c Hjar Hsize.
      rewrite (upload_POST_file env
                 (mkContext jar []
                    (Demo.form_request (ImageUploader.uploadFile file q h c)))
                 w (ImageUploader.uploadFile file q h c) file eq_refl eq_refl).
      by rewrite Hjar, Hsize, Hnot.
Qed.

(** X19 on a bitmap. *)
Lemma uploader_keeps_what_the_route_accepts_witness :
  let bitmap := {| file_name := str "a.bmp"; file_type := str "image/bmp";
                   file_content := [x42; x4d] |} in
  ImageUploader.handleFiles [bitmap] = [bitmap]
  ∧ upload.POST Demo.env
      (mkContext {[ auth_token := str "token" ]} []
         (Demo.form_request (ImageUploader.uploadFile bitmap (Int 80) false true)))
      Demo.empty
    = (Ok upload.invalid_type, Demo.empty).
Proof.
  cbn zeta.
  destruct (uploader_keeps_what_the_route_accepts []
              {| file_name := str "a.bmp"; file_type := str "image/bmp";
                 file_content := [x42; x4d] |}) as [_ H].
  destruct (H eq_refl eq_refl) as [Hkeep Hroute].
  split; [exact Hkeep|].
  exact (Hroute Demo.env {[ auth_token := str "token" ]} Demo.empty (Int 80) false true
           eq_refl eq_refl).
Defined.

(** ** Toasts *)

Lemma to_string_inj a b : JS.to_string a = JS.to_string b → a = b.
Proof.
  intros H. apply (f_equal JS.parseInt) in H. by rewrite !parseInt_reads_back in H.
Qed.

(** X20: a toast is named after the millisecond in which it was
    added.  Removing by that name removes the new toast together with
    any earlier toast of the same millisecond, and gives back the
    earlier list when none is; removing by the name of another
    millisecond keeps the new toast, at the end. *)
Theorem toast_removed_by_millisecond now message type duration prev :
  let id := JS.to_string (Int now) in
  let toasts := useToast.addToast now message type duration prev in
  useToast.removeToast id toasts = useToast.removeToast id prev
  ∧ (Forall (fun toast => useToast.toast_id toast ≠ id) prev →
     useToast.removeToast id toasts = prev)
  ∧ (∀ other, other ≠ now →
       useToast.removeToast (JS.to_string (Int other)) toasts
       = useToast.removeToast (JS.to_string (Int other)) prev
         ++ [last_toast toasts])
  ∧ useToast.toast_id (last_toast toasts) = id
  ∧ useToast.toast_type (last_toast toasts) = default useToast.success type
  ∧ useToast.toast_duration (last_toast toasts) = default (Int 3000) duration.
Proof.
  intros id toasts. unfold toasts, useToast.addToast, useToast.removeToast, last_toast.
  fold id. rewrite last_snoc. cbn [default from_option Datatypes.id].
  split_and!; try reflexivity.
  - rewrite filter_app, filter_cons_False, filter_nil, app_nil_r; [reflexivity|].
    cbn [useToast.toast_id]. by intros H.
  - intros Hfresh. rewrite filter_app, filter_cons_False, filter_nil, app_nil_r;
      [|cbn [useToast.toast_id]; by intros H].
    induction Hfresh as [|t l Ht Hl IH]; [reflexivity|].
    by rewrite filter_cons_True, IH.
  - intros other Hne. rewrite filter_app, filter_cons_True; [reflexivity|].
    cbn [useToast.toast_id]. unfold id. intros H%to_string_inj. congruence.
Qed.

(** X20 on an empty list of toasts. *)
Lemma toast_removed_by_millisecond_witness :
  useToast.removeToast (str "1700000000000")
    (useToast.showError 1700000000000 (str "failed") None []) = [].
Proof.
  destruct (toast_removed_by_millisecond 1700000000000 (str "failed")
              (Some useToast.error) None []) as (_ & H & _).
  exact (H (Forall_nil_2 _)).
Defined.

(** ** The selection of the gallery *)

(** X21: toggling a key twice gives the selection back; one toggle
    changes the membership of that key and of no other.  Select-all
    selects the keys of the images shown and nothing else, and clears
    the selection when it already has as many keys as there are
    images. *)
Theorem gallery_selection (toggled : jsstring) (images : list ImageInfo)
                          (selected : gset jsstring) :
  ImageGallery.toggleImageSelection toggled
    (ImageGallery.toggleImageSelection toggled selected) = selected
  ∧ (toggled ∈ ImageGallery.toggleImageSelection toggled selected
     ↔ toggled ∉ selected)
  ∧ (∀ k, k ≠ toggled →
       (k ∈ ImageGallery.toggleImageSelection toggled selected ↔ k ∈ selected))
  ∧ (∀ k, k ∈ ImageGallery.selectAllImages images selected → k ∈ map key images)
  ∧ (images ≠ [] →
     ImageGallery.selectAllImages images ∅ = list_to_set (map key images))
  ∧ (NoDup (map key images) →
     ImageGallery.selectAllImages images (list_to_set (map key images)) = ∅).
Proof.
  unfold ImageGallery.toggleImageSelection, ImageGallery.selectAllImages.
  assert (Htoggle : ∀ s : gset jsstring,
            (if bool_decide (toggled ∈ s) then s ∖ {[toggled]} else s ∪ {[toggled]})
            = if decide (toggled ∈ s) then s ∖ {[toggled]} else s ∪ {[toggled]})
    by (intros s; by rewrite (bool_decide_decide (toggled ∈ s)); destruct (decide _)).
  rewrite !Htoggle. split_and!.
  - destruct (decide (toggled ∈ selected)) as [Hin | Hout].
    + rewrite decide_False by set_solver.
      apply set_eq. intros x. destruct (decide (x = toggled)); set_solver.
    + rewrite decide_True by set_solver. set_solver.
  - destruct (decide (toggled ∈ selected)); set_solver.
  - intros k Hne. destruct (decide (toggled ∈ selected)); set_solver.
  - intros k. rewrite (bool_decide_decide (_ = _)).
    destruct (decide _); [set_solver|].
    intros Hk. by apply elem_of_list_to_set in Hk.
  - intros Hne. rewrite bool_decide_eq_false_2; [reflexivity|].
    rewrite size_empty. by destruct images.
  - intros Hnd. rewrite bool_decide_eq_true_2; [reflexivity|].
    by rewrite size_list_to_set, length_map.
Qed.
